(** * The video-generation client of AI-Image-Relive

    A shallow embedding of [generateMemoryVideo] (src/src/hooks/useApiKeys.ts,
    second document of the file: the module the application imports as
    [./api/higgsfield]) together with the properties of its submission and
    polling protocol.

    The function is asynchronous and talks to three collaborators: the HTTP
    transport ([axios.post], [axios.get]), the timer ([setTimeout]) and the
    clock ([Date.now]).  They are modelled by a scripted [Server]; a call is
    a pure function from the script to a [Run]: the list of observable
    events in program order, the way the promise settles and the clock
    reading at that moment.  [console] output is not part of the model.

    The callers follow: the hook [useApiKeys] of the same file, the
    handlers of the page component ([handleUrlSubmit], [clearAll],
    [onDropRejected], [handleGenerate]) and [handleSave] of the settings
    dialog, each as the list of state-setter calls it makes. *)

From Stdlib Require Import ZArith String Ascii List Lia Bool DecimalString.
Import ListNotations.
Set Warnings "-register-all".
Local Open Scope string_scope.
Local Open Scope Z_scope.

(* ================================================================== *)
(** ** JavaScript values, as far as the client inspects them *)
(* ================================================================== *)

Module Js.

(** Response bodies are typed [any] in the source.  A body is whatever
    [JSON.parse] can produce, plus [undefined] for a missing property.
    Numbers are kept integral: [Num n] is the Number that [JSON.parse]
    reads from the integer literal [n], the double nearest to [n].  The
    client only tests numbers for truthiness and prints them inside
    template literals.  An object is the list of its own properties; the
    first binding of a name is the property. *)
Inductive value : Type :=
| Undefined
| Null
| Bool (b : bool)
| Num (n : Z)
| Str (s : string)
| Arr (items : list value)
| Obj (fields : list (string * value)).

(** ToBoolean. *)
Definition truthy (v : value) : bool :=
  match v with
  | Undefined | Null => false
  | Bool b => b
  | Num n => negb (n =? 0)
  | Str s => negb (s =? "")%string
  | Arr _ | Obj _ => true
  end.

(** [a || b] on already evaluated operands. *)
Definition or (a b : value) : value := if truthy a then a else b.

Fixpoint lookup (k : string) (fields : list (string * value)) : value :=
  match fields with
  | [] => Undefined
  | (k', v) :: rest => if (k =? k')%string then v else lookup k rest
  end.

(** [v.k] for a [v] that is neither [null] nor [undefined].  The client
    reads eight fixed names ([video], [url], [output], [status],
    [request_id], [id], [status_url], [error]); none of them is a built-in
    property of a string, number, boolean or array, so only objects
    answer. *)
Definition prop (v : value) (k : string) : value :=
  match v with
  | Obj fields => lookup k fields
  | _ => Undefined
  end.

Definition nullish (v : value) : bool :=
  match v with
  | Undefined | Null => true
  | _ => false
  end.

(** [v?.k] *)
Definition optional (v : value) (k : string) : value :=
  if nullish v then Undefined else prop v k.

(** [Array.isArray(v) && v.length > 0] *)
Definition nonempty_array (v : value) : bool :=
  match v with
  | Arr (_ :: _) => true
  | _ => false
  end.

(** [v === s] for a string literal [s]. *)
Definition is_str (v : value) (s : string) : bool :=
  match v with
  | Str s' => (s' =? s)%string
  | _ => false
  end.

(** The decimal digits of an integer. *)
Definition string_of_Z (n : Z) : string :=
  NilZero.string_of_int (Z.to_int n).

(** The Number nearest to a positive integer, ties to even, as the
    integer it is; [None] is [Infinity]. *)
Definition to_double (n : Z) : option Z :=
  let b := Z.log2 n in
  if b <=? 52 then Some n else
  let shift := b - 52 in
  let q := Z.shiftr n shift in
  let r := Z.land n (Z.ones shift) in
  let half := Z.shiftl 1 (shift - 1) in
  let q' := if (half <? r) || ((r =? half) && Z.odd q) then q + 1 else q in
  let x := Z.shiftl q' shift in
  if Z.shiftl 1 1024 <=? x then None else Some x.

(** The decimal [c] reads back as the Number [x]. *)
Definition reads_as (x c : Z) : bool :=
  match to_double c with
  | Some y => y =? x
  | None => false
  end.

(** The multiple of [scale] that reads back as [x] and is nearest to it
    (the even one of two equally near), when there is one. *)
Definition pick (x scale : Z) : option Z :=
  let lo := (x / scale) * scale in
  let hi := lo + scale in
  match reads_as x lo, reads_as x hi with
  | true, true =>
      Some (if x - lo <? hi - x then lo
            else if hi - x <? x - lo then hi
            else if Z.even (x / scale) then lo else hi)
  | true, false => Some lo
  | false, true => Some hi
  | false, false => None
  end.

(** The decimal with the fewest significant digits that reads back as
    [x]: the search starts with [zeros] trailing zeros and gives one up
    at a time. *)
Fixpoint shortest (x : Z) (zeros : nat) : Z :=
  match pick x (10 ^ Z.of_nat zeros) with
  | Some v => v
  | None =>
      match zeros with
      | O => x
      | S zeros' => shortest x zeros'
      end
  end.

(** [s] without its trailing zeros. *)
Fixpoint strip (s : string) : string :=
  match s with
  | EmptyString => EmptyString
  | String c rest =>
      match strip rest with
      | EmptyString =>
          if (c =? "0")%char then EmptyString else String c EmptyString
      | rest' => String c rest'
      end
  end.

(** [d.ddde+x] for a decimal of [n] digits. *)
Definition exponent_form (digits : string) (n : nat) : string :=
  match strip digits with
  | EmptyString => "0"
  | String c EmptyString => String c ("e+" ++ string_of_Z (Z.of_nat (n - 1)))
  | String c rest =>
      String c ("." ++ rest ++ "e+" ++ string_of_Z (Z.of_nat (n - 1)))
  end.

(** Number::toString of [Num n]: the shortest decimal that reads back as
    the same Number, written in full up to 21 digits and with an exponent
    beyond. *)
Definition number_to_string (n : Z) : string :=
  if n =? 0 then "0" else
  (if n <? 0 then "-" else "") ++
  match to_double (Z.abs n) with
  | None => "Infinity"
  | Some x =>
      let digits :=
        string_of_Z (shortest x (String.length (string_of_Z x) - 1)) in
      if (String.length digits <=? 21)%nat then digits
      else exponent_form digits (String.length digits)
  end.

(** [Object.hasOwn(v, k)] on the property list of an object. *)
Definition has_own (k : string) (fields : list (string * value)) : bool :=
  existsb (fun f => (fst f =? k)%string) fields.

(** ToString, as a template literal applies it; [None] when it throws a
    [TypeError].  An object is printed by the [toString] it inherits,
    unless it has a property of that name of its own: a value read from
    JSON is not callable, the inherited [valueOf] returns the object, and
    the conversion throws.  An array joins the strings of its elements,
    [null] and [undefined] printing as nothing. *)
Fixpoint to_string (v : value) : option string :=
  match v with
  | Undefined => Some "undefined"
  | Null => Some "null"
  | Bool true => Some "true"
  | Bool false => Some "false"
  | Num n => Some (number_to_string n)
  | Str s => Some s
  | Arr items =>
      (fix join (l : list value) : option string :=
         match l with
         | [] => Some ""
         | x :: rest =>
             match (if nullish x then Some "" else to_string x) with
             | None => None
             | Some sx =>
                 match rest with
                 | [] => Some sx
                 | _ :: _ =>
                     match join rest with
                     | None => None
                     | Some sr => Some (sx ++ "," ++ sr)
                     end
                 end
             end
         end) items
  | Obj fields =>
      if has_own "toString" fields then None else Some "[object Object]"
  end.

(** A template literal can print [v]. *)
Definition printable (v : value) : bool :=
  match to_string v with
  | Some _ => true
  | None => false
  end.

End Js.

(* ================================================================== *)
(** ** Exceptions *)
(* ================================================================== *)

(** What a [throw] can carry in this module. *)
Inductive thrown : Type :=
| TypeError
    (* a property read on [null] or [undefined], or a value a template
       literal cannot print *)
| AxiosError (message : string) (response : option Z)
    (* the transport failed; [response] is the HTTP status when the server
       answered with a non-2xx code, [None] for a network failure or a
       timeout *)
| Error (message : string).
    (* [new Error(message)] *)

(** [pollError.response && pollError.response.status] *)
Definition response_status (e : thrown) : option Z :=
  match e with
  | AxiosError _ r => r
  | TypeError | Error _ => None
  end.

Definition result (A : Type) : Type := (thrown + A)%type.

Definition ret {A : Type} (a : A) : result A := inr a.

Definition bind {A B : Type} (m : result A) (k : A -> result B) : result B :=
  match m with
  | inl e => inl e
  | inr a => k a
  end.

Notation "x <- m ;; k" := (bind m (fun x => k))
  (at level 61, m at next level, right associativity).

(** [v.k], throwing on [null] and [undefined]. *)
Definition get (v : Js.value) (k : string) : result Js.value :=
  if Js.nullish v then inl TypeError else ret (Js.prop v k).

(** [${v}] inside a template literal. *)
Definition interpolate (v : Js.value) : result string :=
  match Js.to_string v with
  | Some text => ret text
  | None => inl TypeError
  end.

(* ================================================================== *)
(** ** The environment of one call *)
(* ================================================================== *)

(** The script the collaborators follow.  Times are in milliseconds and
    never negative; [timer_lag i] is how much later than asked the i-th
    [setTimeout] fires. *)
Record Server : Type := {
  post_reply : result Js.value;
  post_time : N;
  poll_reply : nat -> result Js.value;
  poll_time : nat -> N;
  timer_lag : nat -> N
}.

Definition header : Type := (string * string)%type.

Inductive event : Type :=
| StatusUpdate (status : Js.value)
| Post (url : string) (body : Js.value) (hdrs : list header) (timeout : Z)
| Wait (ms : Z)
| Get (url : Js.value) (hdrs : list header).

(** How the promise returned by the call settles.  [OutOfFuel] is the
    model's own: the loop below is bounded by a counter, and
    [generate_settles] shows that the counter never runs out. *)
Inductive outcome : Type :=
| Resolved (data : Js.value)
| Rejected (e : thrown)
| OutOfFuel.

Record Run : Type := {
  events : list event;
  settled : outcome;
  finished : Z
}.

Definition resolved (data : Js.value) (now : Z) : Run :=
  {| events := []; settled := Resolved data; finished := now |}.

Definition rejected (e : thrown) (now : Z) : Run :=
  {| events := []; settled := Rejected e; finished := now |}.

(** [r], with the events [evs] in front of its own. *)
Definition prefix (evs : list event) (r : Run) : Run :=
  {| events := evs ++ events r; settled := settled r; finished := finished r |}.

(** Run [k] on the value of [m]; an exception of [m] rejects the call. *)
Definition or_reject {A : Type} (m : result A) (now : Z) (k : A -> Run) : Run :=
  match m with
  | inl e => rejected e now
  | inr a => k a
  end.

(** [onStatusUpdate] is optional; the model records whether it was
    supplied and logs each invocation as a [StatusUpdate] event.  The
    callback is taken not to throw. *)
Record GenerateVideoParams : Type := {
  imageUrl : string;
  apiKey : string;
  apiSecret : string;
  onStatusUpdate : bool
}.

(* ================================================================== *)
(** ** The client *)
(* ================================================================== *)

Definition API_URL : string :=
  "https://platform.higgsfield.ai/higgsfield-ai/dop/lite".

Definition TIMEOUT_MS : Z := 2000000.
Definition POLLING_INTERVAL : Z := 5000.
Definition POST_TIMEOUT : Z := 30000.

Definition payload (p : GenerateVideoParams) : Js.value :=
  Js.Obj
    [ ("prompt",
       Js.Str "recreate the uploaded image into a real-life motion like video");
      ("image2video_model", Js.Str "dop-lite");
      ("seed", Js.Num 36644);
      ("motions",
       Js.Arr [ Js.Obj [ ("id", Js.Str "31177282-bde3-4870-b283-1135ca0a201a");
                         ("strength", Js.Num 1) ] ]);
      ("image_url", Js.Str (imageUrl p));
      ("input_images",
       Js.Arr [ Js.Obj [ ("type", Js.Str "image_url");
                         ("image_url", Js.Str (imageUrl p)) ] ]);
      ("enhance_prompt", Js.Bool true);
      ("check_nsfw", Js.Bool true) ].

Definition headers (p : GenerateVideoParams) : list header :=
  [ ("Content-Type", "application/json");
    ("hf-api-key", apiKey p);
    ("hf-secret", apiSecret p) ].

(** [if (onStatusUpdate) onStatusUpdate(status)] *)
Definition notify (p : GenerateVideoParams) (status : Js.value) : list event :=
  if onStatusUpdate p then [StatusUpdate status] else [].

(** The helper of line 89.  [||] evaluates its right operand only when the
    left one is falsy. *)
Definition isVideoReady (response : Js.value) : result Js.value :=
  video <- get response "video" ;;
  let video_url := Js.optional video "url" in
  if Js.truthy video_url then ret video_url else
  output <- get response "output" ;;
  if Js.truthy output then ret output else
  url <- get response "url" ;;
  if Js.truthy url then ret url else
  output' <- get response "output" ;;
  ret (Js.Bool (Js.nonempty_array output')).

(** The template literal of line 101. *)
Definition status_template (requestId : Js.value) : result Js.value :=
  id <- interpolate requestId ;;
  ret (Js.Str ("https://platform.higgsfield.ai/requests/" ++ id ++ "/status")).

(** What one pass through the loop body decides. *)
Inductive flow : Type :=
| Continue
| Return (data : Js.value)
| Throw (e : thrown).

(** The [try] block of the loop body (lines 119-137), given what
    [axios.get] produced.  [inl] is an exception raised inside the block,
    on its way to the [catch] clause.  The template literal of line 124
    prints the request id, which line 107 printed before the loop was
    entered: it cannot throw here, and its text goes to the console. *)
Definition poll_try (p : GenerateVideoParams) (reply : result Js.value)
  : list event * result flow :=
  match reply with
  | inl e => ([], inl e)
  | inr data =>
      match get data "status" with
      | inl e => ([], inl e)
      | inr status =>
          let currentStatus := Js.or status (Js.Str "in_progress") in
          let evs := notify p currentStatus in
          let success :=
            if Js.is_str currentStatus "completed"
               || Js.is_str currentStatus "success"
            then ret true
            else (ready <- isVideoReady data ;; ret (Js.truthy ready)) in
          match success with
          | inl e => (evs, inl e)
          | inr true => (evs, ret (Return data))
          | inr false =>
              if Js.is_str currentStatus "failed"
                 || Js.is_str currentStatus "nsfw"
              then
                (evs,
                 err <- get data "error" ;;
                 reason <- interpolate (Js.or err currentStatus) ;;
                 inl (Error ("Video generation failed: " ++ reason)))
              else (evs, ret Continue)
          end
      end
  end.

(** The test of line 142. *)
Definition is_client_error (pollError : thrown) : bool :=
  match response_status pollError with
  | Some status => (400 <=? status) && (status <? 500) && negb (status =? 429)
  | None => false
  end.

(** The [catch] clause (lines 139-146). *)
Definition poll_catch (pollError : thrown) : flow :=
  if is_client_error pollError then Throw pollError else Continue.

(** One [try]/[catch] statement. *)
Definition poll_attempt (p : GenerateVideoParams) (reply : result Js.value)
  : list event * flow :=
  let (evs, r) := poll_try p reply in
  (evs, match r with
        | inl e => poll_catch e
        | inr f => f
        end).

Definition timeout_error : thrown :=
  Error "Timed out waiting for video generation (2000s limit reached).".

Section PollLoop.

Variable srv : Server.
Variable p : GenerateVideoParams.
Variable statusUrl : Js.value.
Variable startTime : Z.

(** The clock after the [i]-th wait and after the [i]-th GET, when the
    pass began at [now]. *)
Definition after_wait (now : Z) (i : nat) : Z :=
  now + POLLING_INTERVAL + Z.of_N (timer_lag srv i).

Definition after_poll (now : Z) (i : nat) : Z :=
  after_wait now i + Z.of_N (poll_time srv i).

(** What the [i]-th pass through the loop body does and decides. *)
Definition iteration (i : nat) : list event :=
  Wait POLLING_INTERVAL :: Get statusUrl (headers p)
    :: fst (poll_attempt p (poll_reply srv i)).

Definition decision (i : nat) : flow :=
  snd (poll_attempt p (poll_reply srv i)).

(** The [while] loop of line 115, entered at clock reading [now] with
    [i] polls behind it. *)
Fixpoint poll_loop (fuel : nat) (now : Z) (i : nat) : Run :=
  match fuel with
  | O => {| events := []; settled := OutOfFuel; finished := now |}
  | S fuel' =>
      if now - startTime <? TIMEOUT_MS then
        match decision i with
        | Continue =>
            prefix (iteration i) (poll_loop fuel' (after_poll now i) (S i))
        | Return data =>
            prefix (iteration i) (resolved data (after_poll now i))
        | Throw e =>
            prefix (iteration i) (rejected e (after_poll now i))
        end
      else rejected timeout_error now
  end.

(** The loop condition of line 115 at clock reading [now]. *)
Definition within_budget (now : Z) : Prop := now - startTime < TIMEOUT_MS.

(** [S fuel] passes are enough from clock reading [now] on. *)
Definition enough (fuel : nat) (now : Z) : Prop :=
  TIMEOUT_MS - (now - startTime) <= Z.of_nat fuel * POLLING_INTERVAL.

(** The clock after [k] passes that began at [now] with [i] polls
    behind. *)
Fixpoint clock_after (now : Z) (i k : nat) : Z :=
  match k with
  | O => now
  | S k' => clock_after (after_poll now i) (S i) k'
  end.

End PollLoop.

(** Enough iterations for any script: every pass takes at least
    [POLLING_INTERVAL] off a budget of [TIMEOUT_MS]. *)
Definition poll_fuel : nat := S (Z.to_nat (TIMEOUT_MS / POLLING_INTERVAL)).

(** [data.request_id || data.id] *)
Definition requestId_of (data : Js.value) : result Js.value :=
  request_id <- get data "request_id" ;;
  if Js.truthy request_id then ret request_id else get data "id".

(** The text logged on line 107, which prints the request id and the
    status URL. *)
Definition job_started (requestId statusUrl : Js.value) : result string :=
  id <- interpolate requestId ;;
  url <- interpolate statusUrl ;;
  ret ("Job started (ID: " ++ id ++ "). Polling URL: " ++ url).

(** Lines 107-149: the job is tracked at [statusUrl]. *)
Definition track (srv : Server) (p : GenerateVideoParams) (data : Js.value)
    (requestId statusUrl : Js.value) (now : Z) : Run :=
  or_reject (job_started requestId statusUrl) now (fun _ =>
  or_reject (get data "status") now (fun status =>
  prefix (notify p (Js.or status (Js.Str "Queued")))
         (poll_loop srv p statusUrl now poll_fuel now 0))).

(** The part of the function after a successful POST (lines 85-153). *)
Definition after_post (srv : Server) (p : GenerateVideoParams)
    (data : Js.value) (now : Z) : Run :=
  or_reject (isVideoReady data) now (fun ready =>
  if negb (Js.truthy ready) then
    or_reject (requestId_of data) now (fun requestId =>
    or_reject (get data "status_url") now (fun statusUrl =>
    if negb (Js.truthy statusUrl) && Js.truthy requestId then
      or_reject (status_template requestId) now (fun statusUrl' =>
      track srv p data requestId statusUrl' now)
    else if negb (Js.truthy statusUrl) && negb (Js.truthy requestId) then
      resolved data now
    else
      track srv p data requestId statusUrl now))
  else resolved data now).

(** [generateMemoryVideo], called at clock reading [t0].  The outer
    [catch] logs and rethrows, so a rejection passes through unchanged. *)
Definition generateMemoryVideo (srv : Server) (p : GenerateVideoParams)
    (t0 : Z) : Run :=
  let t1 := t0 + Z.of_N (post_time srv) in
  prefix (notify p (Js.Str "Initializing...")
            ++ [Post API_URL (payload p) (headers p) POST_TIMEOUT])
         (or_reject (post_reply srv) t1 (fun data => after_post srv p data t1)).

(** Number of polling GETs in a trace. *)
Definition is_get (e : event) : bool :=
  match e with
  | Get _ _ => true
  | _ => false
  end.

Definition count_gets (evs : list event) : nat := length (filter is_get evs).

Definition polls (r : Run) : nat := count_gets (events r).

(** The status updates of a trace, in order. *)
Definition updates (evs : list event) : list Js.value :=
  flat_map (fun e => match e with StatusUpdate s => [s] | _ => [] end) evs.

(* ================================================================== *)
(** ** The caller *)
(* ================================================================== *)

(** The caller's search for the video URL in what the call resolved with
    (the [handleGenerate] function of the application component). *)
Definition videoUrl (response : Js.value) : result Js.value :=
  video <- get response "video" ;;
  let video_url := Js.optional video "url" in
  if Js.truthy video_url then ret video_url else
  output <- get response "output" ;;
  if Js.truthy output then ret output else
  url <- get response "url" ;;
  if Js.truthy url then ret url else
  output' <- get response "output" ;;
  ret match output' with
      | Js.Arr (first :: _) => first
      | Js.Arr [] => Js.Undefined
      | _ => Js.Null
      end.

(* ================================================================== *)
(** ** Observations on a run *)
(* ================================================================== *)

Definition is_post (e : event) : bool :=
  match e with
  | Post _ _ _ _ => true
  | _ => false
  end.

(** The URLs polled, in order. *)
Definition targets (evs : list event) : list Js.value :=
  flat_map (fun e => match e with Get url _ => [url] | _ => [] end) evs.

Definition field_names (v : Js.value) : list string :=
  match v with
  | Js.Obj fields => map fst fields
  | _ => []
  end.

Definition status_list (o : option Js.value) : list Js.value :=
  match o with
  | Some s => [s]
  | None => []
  end.

(** [needle] occurs in [s]. *)
Fixpoint occurs (needle s : string) : bool :=
  String.prefix needle s
  || match s with
     | EmptyString => false
     | String _ rest => occurs needle rest
     end.

(** The events of the submission phase. *)
Definition submission (p : GenerateVideoParams) : list event :=
  notify p (Js.Str "Initializing...")
    ++ [Post API_URL (payload p) (headers p) POST_TIMEOUT].

(** The clock when the POST has been answered. *)
Definition submitted (srv : Server) (t0 : Z) : Z := t0 + Z.of_N (post_time srv).

(* ================================================================== *)
(** ** Reading a response *)
(* ================================================================== *)

(** The value [isVideoReady] computes on a body it can read. *)
Definition ready_value (data : Js.value) : Js.value :=
  Js.or (Js.optional (Js.prop data "video") "url")
    (Js.or (Js.prop data "output")
       (Js.or (Js.prop data "url")
          (Js.Bool (Js.nonempty_array (Js.prop data "output"))))).

(** [!isVideoReady(data)] holds (and did not throw). *)
Definition not_ready (data : Js.value) : bool :=
  match isVideoReady data with
  | inr v => negb (Js.truthy v)
  | inl _ => false
  end.

(** [data.request_id || data.id] on a readable body. *)
Definition request_id (data : Js.value) : Js.value :=
  Js.or (Js.prop data "request_id") (Js.prop data "id").

(** [data.status || fallback] on a readable body. *)
Definition status_or (fallback : string) (data : Js.value) : Js.value :=
  Js.or (Js.prop data "status") (Js.Str fallback).

(** The status a poll reply hands to the callback, when it has one. *)
Definition poll_status (reply : result Js.value) : option Js.value :=
  match reply with
  | inr data =>
      if Js.nullish data then None else Some (status_or "in_progress" data)
  | inl _ => None
  end.

(** A status outside the four terminal ones on a body that is not ready:
    the loop goes on. *)
Definition terminal_status (s : Js.value) : bool :=
  Js.is_str s "completed" || Js.is_str s "success"
  || Js.is_str s "failed" || Js.is_str s "nsfw".

Definition pending (data : Js.value) : bool :=
  not_ready data && negb (terminal_status (status_or "in_progress" data)).

(** The response names the job: [statusUrl || requestId], the negation
    of the test of line 102. *)
Definition named (data : Js.value) : bool :=
  Js.truthy (Js.prop data "status_url") || Js.truthy (request_id data).

(** The job can be followed: the response names it, and the template
    literals of lines 101 and 107 can print the request id and the status
    URL, so that the loop of line 115 is entered.  A string, a number, a
    boolean, [null] and [undefined] can always be printed. *)
Definition trackable (data : Js.value) : bool :=
  named data
  && Js.printable (request_id data)
  && Js.printable (Js.prop data "status_url").

(** The value of [statusUrl] when the loop is entered (lines 97-101). *)
Definition poll_target (data : Js.value) : Js.value :=
  if Js.truthy (Js.prop data "status_url") then Js.prop data "status_url"
  else match status_template (request_id data) with
       | inr statusUrl => statusUrl
       | inl _ => Js.Undefined
       end.

(* ================================================================== *)
(** ** Readiness as the specification words it *)
(* ================================================================== *)

(** A resolvable URL: a string that is not empty. *)
Definition is_url (v : Js.value) : bool :=
  match v with
  | Js.Str s => negb (s =? "")%string
  | _ => false
  end.

(** The specification's four shapes: a nested video-object URL field, a
    top-level output field holding a URL, a non-empty list of URLs under
    output, a top-level url field. *)
Definition spec_ready (data : Js.value) : bool :=
  is_url (Js.prop (Js.prop data "video") "url")
  || is_url (Js.prop data "output")
  || match Js.prop data "output" with
     | Js.Arr (first :: more) => forallb is_url (first :: more)
     | _ => false
     end
  || is_url (Js.prop data "url").

(* ================================================================== *)
(** ** Scripts used as concrete inputs *)
(* ================================================================== *)

(** A server that answers at once and whose timer fires on time. *)
Definition prompt_server (post : result Js.value)
    (poll : nat -> result Js.value) : Server :=
  {| post_reply := post;
     post_time := 0;
     poll_reply := poll;
     poll_time := fun _ => 0%N;
     timer_lag := fun _ => 0%N |}.

Definition demo : GenerateVideoParams :=
  {| imageUrl := "https://example.com/cat.png";
     apiKey := "key";
     apiSecret := "secret";
     onStatusUpdate := true |}.

Definition queued_job : Js.value :=
  Js.Obj [("request_id", Js.Str "r-42"); ("status", Js.Str "queued")].

Definition in_progress_body : Js.value :=
  Js.Obj [("status", Js.Str "in_progress")].

Definition completed_body : Js.value :=
  Js.Obj [("status", Js.Str "completed")].

Definition failed_body : Js.value :=
  Js.Obj [("status", Js.Str "failed"); ("error", Js.Str "boom")].

(** A job that is in progress at the first poll, unreachable at the second
    and completed from the third on. *)
Definition flaky_server : Server :=
  prompt_server (inr queued_job)
    (fun i => match i with
              | O => inr in_progress_body
              | 1%nat => inl (AxiosError "Network Error" None)
              | _ => inr completed_body
              end).

(** A server whose first poll is refused with the given HTTP status and
    which reports completion afterwards. *)
Definition refusing_server (status : Z) : Server :=
  prompt_server (inr queued_job)
    (fun i => match i with
              | O => inl (AxiosError "Request failed" (Some status))
              | _ => inr completed_body
              end).

(** A job that stays in progress for ever, on a server that answers at
    once. *)
Definition stalled_server : Server :=
  prompt_server (inr queued_job) (fun _ => inr in_progress_body).

(** A job the server declares failed at every poll. *)
Definition failing_server : Server :=
  prompt_server (inr queued_job) (fun _ => inr failed_body).

(** A job the server declares failed at the first poll and completed at
    the second. *)
Definition recovering_server : Server :=
  prompt_server (inr queued_job)
    (fun i => match i with
              | O => inr failed_body
              | _ => inr completed_body
              end).

(* ================================================================== *)
(** ** The HTTP side of a trace *)
(* ================================================================== *)

Definition is_update (e : event) : bool :=
  match e with
  | StatusUpdate _ => true
  | _ => false
  end.

(** A trace without its status updates: the requests and the waits. *)
Definition traffic (evs : list event) : list event :=
  filter (fun e => negb (is_update e)) evs.

(** The same call with or without a callback. *)
Definition with_callback (supplied : bool) (p : GenerateVideoParams)
  : GenerateVideoParams :=
  {| imageUrl := imageUrl p;
     apiKey := apiKey p;
     apiSecret := apiSecret p;
     onStatusUpdate := supplied |}.

(** A job reported failed together with an output URL. *)
Definition failed_with_output : Js.value :=
  Js.Obj [("status", Js.Str "failed"); ("output", Js.Str "https://cdn/v.mp4")].

(** A server whose first poll comes back with a [null] body. *)
Definition mute_server : Server :=
  prompt_server (inr queued_job)
    (fun i => match i with
              | O => inr Js.Null
              | _ => inr completed_body
              end).

(* ================================================================== *)
(** ** The hook [useApiKeys] *)
(* ================================================================== *)

Module UseApiKeys.

(** The state of the hook. *)
Record keys : Type := {
  apiKey : string;
  apiSecret : string
}.

Definition initial : keys := {| apiKey := ""; apiSecret := "" |}.

(** A variable of [import.meta.env] is a string, or [undefined] when it is
    not set. *)
Definition truthy (v : option string) : bool :=
  match v with
  | Some s => negb (s =? "")%string
  | None => false
  end.

(** [v !== literal] *)
Definition differs (v : option string) (literal : string) : bool :=
  match v with
  | Some s => negb (s =? literal)%string
  | None => true
  end.

Definition hasEnvKeys (envKey envSecret : option string) : bool :=
  truthy envKey && differs envKey "YOUR_API_KEY"
  && truthy envSecret && differs envSecret "YOUR_API_SECRET".

(** The effect that runs once, when the component mounts. *)
Definition mount (envKey envSecret : option string) (k : keys) : keys :=
  if hasEnvKeys envKey envSecret then
    match envKey, envSecret with
    | Some key, Some secret => {| apiKey := key; apiSecret := secret |}
    | _, _ => k
    end
  else k.

Definition saveKeys (newKey newSecret : string) (_ : keys) : keys :=
  {| apiKey := newKey; apiSecret := newSecret |}.

(** [Boolean(keys.apiKey && keys.apiSecret)] *)
Definition hasKeys (k : keys) : bool :=
  negb (apiKey k =? "")%string && negb (apiSecret k =? "")%string.

End UseApiKeys.

(* ================================================================== *)
(** ** Strings as the handlers of the page test them *)
(* ================================================================== *)

(** A string is the sequence of its code units, here below 256. *)
Module Text.

Definition code (c : ascii) : nat := nat_of_ascii c.

(** White space and line terminators, as [trim] strips them. *)
Definition is_white_space (c : ascii) : bool :=
  let n := code c in
  ((n =? 9) || (n =? 10) || (n =? 11) || (n =? 12) || (n =? 13)
   || (n =? 32) || (n =? 160))%nat.

(** The characters [.] does not match. *)
Definition is_line_terminator (c : ascii) : bool :=
  let n := code c in ((n =? 10) || (n =? 13))%nat.

Fixpoint trimStart (s : string) : string :=
  match s with
  | EmptyString => EmptyString
  | String c rest => if is_white_space c then trimStart rest else s
  end.

Fixpoint trimEnd (s : string) : string :=
  match s with
  | EmptyString => EmptyString
  | String c rest =>
      let rest' := trimEnd rest in
      if (rest' =? "")%string && is_white_space c then EmptyString
      else String c rest'
  end.

Definition trim (s : string) : string := trimEnd (trimStart s).

(** The regular expressions the page uses: characters, [.], [^],
    sequence, [?] and [+]. *)
Inductive regex : Type :=
| Char (c : ascii)
| Dot
| Bol
| Seq (a b : regex)
| Opt (a : regex)
| Plus (a : regex).

(** A place in the subject: how many code units lie behind it, and what
    lies ahead. *)
Definition place : Type := (nat * string)%type.

(** One or more rounds of [step], longest first.  The fuel is the length
    of what lies ahead, which is enough when every round consumes a
    character, as [.] does. *)
Fixpoint rounds (step : place -> list place) (fuel : nat) (at_ : place)
  : list place :=
  match fuel with
  | O => []
  | S fuel' =>
      flat_map (fun next => (rounds step fuel' next ++ [next])%list) (step at_)
  end.

(** The places where a match of [r] that begins at [at_] can end, in the
    order a backtracking matcher tries them. *)
Fixpoint ends (r : regex) (at_ : place) : list place :=
  match r with
  | Char c =>
      match snd at_ with
      | String c' rest => if Ascii.eqb c c' then [(S (fst at_), rest)] else []
      | EmptyString => []
      end
  | Dot =>
      match snd at_ with
      | String c' rest =>
          if is_line_terminator c' then [] else [(S (fst at_), rest)]
      | EmptyString => []
      end
  | Bol => if (fst at_ =? 0)%nat then [at_] else []
  | Seq a b => flat_map (ends b) (ends a at_)
  | Opt a => (ends a at_ ++ [at_])%list
  | Plus a => rounds (ends a) (String.length (snd at_)) at_
  end.

Fixpoint drop (n : nat) (s : string) : string :=
  match n, s with
  | O, _ => s
  | S n', String _ rest => drop n' rest
  | S _, EmptyString => EmptyString
  end.

(** [s.match(r)] is not [null]: [r] matches somewhere in [s]. *)
Definition matches (r : regex) (s : string) : bool :=
  existsb (fun i => match ends r (i, drop i s) with
                    | [] => false
                    | _ :: _ => true
                    end)
          (seq 0 (S (String.length s))).

(** The characters of a literal, one after the other, then [r]. *)
Fixpoint literal (w : string) (r : regex) : regex :=
  match w with
  | EmptyString => r
  | String c rest => Seq (Char c) (literal rest r)
  end.

(** [/^https?:\/\/.+/] *)
Definition url_pattern : regex :=
  Seq Bol (literal "http" (Seq (Opt (Char "s")) (literal "://" (Plus Dot)))).

(** The strings [url_pattern] is meant for. *)
Definition is_http_url (s : string) : Prop :=
  exists c rest,
    is_line_terminator c = false
    /\ (s = ("http://" ++ String c rest)%string
        \/ s = ("https://" ++ String c rest)%string).

End Text.

(* ================================================================== *)
(** ** The client with a callback that can throw *)
(* ================================================================== *)

(** [generateMemoryVideo] once more, for a caller whose [onStatusUpdate]
    may throw.  The callback is what it does besides being called: [None]
    when it returns, [Some e] when it throws [e].  A [StatusUpdate] event
    is logged for every call of the callback, returning or not. *)
Module WithCallback.

Definition callback : Type := Js.value -> option thrown.

Section Call.

Variable srv : Server.
Variable p : GenerateVideoParams.
Variable cb : callback.

(** [if (onStatusUpdate) onStatusUpdate(status)] *)
Definition notify (status : Js.value) : list event * option thrown :=
  if onStatusUpdate p then ([StatusUpdate status], cb status) else ([], None).

(** The [try] block of the loop body (lines 119-137). *)
Definition poll_try (reply : result Js.value) : list event * result flow :=
  match reply with
  | inl e => ([], inl e)
  | inr data =>
      match get data "status" with
      | inl e => ([], inl e)
      | inr status =>
          let currentStatus := Js.or status (Js.Str "in_progress") in
          let (evs, thrown_) := notify currentStatus in
          match thrown_ with
          | Some e => (evs, inl e)
          | None =>
              let success :=
                if Js.is_str currentStatus "completed"
                   || Js.is_str currentStatus "success"
                then ret true
                else (ready <- isVideoReady data ;; ret (Js.truthy ready)) in
              match success with
              | inl e => (evs, inl e)
              | inr true => (evs, ret (Return data))
              | inr false =>
                  if Js.is_str currentStatus "failed"
                     || Js.is_str currentStatus "nsfw"
                  then
                    (evs,
                     err <- get data "error" ;;
                     reason <- interpolate (Js.or err currentStatus) ;;
                     inl (Error ("Video generation failed: " ++ reason)))
                  else (evs, ret Continue)
              end
          end
      end
  end.

(** One [try]/[catch] statement; the [catch] clause is [poll_catch]. *)
Definition poll_attempt (reply : result Js.value) : list event * flow :=
  let (evs, r) := poll_try reply in
  (evs, match r with
        | inl e => poll_catch e
        | inr f => f
        end).

Definition iteration (statusUrl : Js.value) (i : nat) : list event :=
  Wait POLLING_INTERVAL :: Get statusUrl (headers p)
    :: fst (poll_attempt (poll_reply srv i)).

Definition decision (i : nat) : flow :=
  snd (poll_attempt (poll_reply srv i)).

(** The [while] loop of line 115. *)
Fixpoint poll_loop (statusUrl : Js.value) (startTime : Z)
    (fuel : nat) (now : Z) (i : nat) : Run :=
  match fuel with
  | O => {| events := []; settled := OutOfFuel; finished := now |}
  | S fuel' =>
      if now - startTime <? TIMEOUT_MS then
        match decision i with
        | Continue =>
            prefix (iteration statusUrl i)
              (poll_loop statusUrl startTime fuel' (after_poll srv now i) (S i))
        | Return data =>
            prefix (iteration statusUrl i)
              (resolved data (after_poll srv now i))
        | Throw e =>
            prefix (iteration statusUrl i)
              (rejected e (after_poll srv now i))
        end
      else rejected timeout_error now
  end.

(** Lines 107-149. *)
Definition track (data : Js.value) (requestId statusUrl : Js.value)
    (now : Z) : Run :=
  or_reject (job_started requestId statusUrl) now (fun _ =>
  or_reject (get data "status") now (fun status =>
  let (evs, thrown_) := notify (Js.or status (Js.Str "Queued")) in
  match thrown_ with
  | Some e => prefix evs (rejected e now)
  | None => prefix evs (poll_loop statusUrl now poll_fuel now 0)
  end)).

(** Lines 85-153. *)
Definition after_post (data : Js.value) (now : Z) : Run :=
  or_reject (isVideoReady data) now (fun ready =>
  if negb (Js.truthy ready) then
    or_reject (requestId_of data) now (fun requestId =>
    or_reject (get data "status_url") now (fun statusUrl =>
    if negb (Js.truthy statusUrl) && Js.truthy requestId then
      or_reject (status_template requestId) now (fun statusUrl' =>
      track data requestId statusUrl' now)
    else if negb (Js.truthy statusUrl) && negb (Js.truthy requestId) then
      resolved data now
    else
      track data requestId statusUrl now))
  else resolved data now).

(** The whole function.  An exception of the first call of the callback
    (line 78) reaches the outer [catch] before the POST is made. *)
Definition generateMemoryVideo (t0 : Z) : Run :=
  let (evs, thrown_) := notify (Js.Str "Initializing...") in
  match thrown_ with
  | Some e => prefix evs (rejected e t0)
  | None =>
      let t1 := t0 + Z.of_N (post_time srv) in
      prefix (evs ++ [Post API_URL (payload p) (headers p) POST_TIMEOUT])
             (or_reject (post_reply srv) t1 (fun data => after_post data t1))
  end.

End Call.

End WithCallback.

(* ================================================================== *)
(** ** The page component [App] *)
(* ================================================================== *)

Module App.

(** A [File] object, known by its name. *)
Definition File : Type := string.

(** The state variables the handlers below read or write.  [error] and
    [generatedVideo] are typed [string | null] but receive whatever the
    server sent, so they hold JavaScript values. *)
Record State : Type := {
  file : option File;
  preview : option string;
  urlInput : string;
  isGenerating : bool;
  generationStatus : string;
  generatedVideo : Js.value;
  error : Js.value;
  isSettingsOpen : bool;
  keys : UseApiKeys.keys
}.

(** A call of a state setter. *)
Inductive write : Type :=
| SetFile (f : option File)
| SetPreview (s : option string)
| SetUrlInput (s : string)
| SetIsGenerating (b : bool)
| SetGenerationStatus (s : string)
| SetGeneratedVideo (v : Js.value)
| SetError (v : Js.value)
| SetIsSettingsOpen (b : bool)
| SaveKeys (newKey newSecret : string).

Definition apply (st : State) (w : write) : State :=
  match w with
  | SetFile f =>
      {| file := f; preview := preview st; urlInput := urlInput st;
         isGenerating := isGenerating st;
         generationStatus := generationStatus st;
         generatedVideo := generatedVideo st; error := error st;
         isSettingsOpen := isSettingsOpen st; keys := keys st |}
  | SetPreview s =>
      {| file := file st; preview := s; urlInput := urlInput st;
         isGenerating := isGenerating st;
         generationStatus := generationStatus st;
         generatedVideo := generatedVideo st; error := error st;
         isSettingsOpen := isSettingsOpen st; keys := keys st |}
  | SetUrlInput s =>
      {| file := file st; preview := preview st; urlInput := s;
         isGenerating := isGenerating st;
         generationStatus := generationStatus st;
         generatedVideo := generatedVideo st; error := error st;
         isSettingsOpen := isSettingsOpen st; keys := keys st |}
  | SetIsGenerating b =>
      {| file := file st; preview := preview st; urlInput := urlInput st;
         isGenerating := b;
         generationStatus := generationStatus st;
         generatedVideo := generatedVideo st; error := error st;
         isSettingsOpen := isSettingsOpen st; keys := keys st |}
  | SetGenerationStatus s =>
      {| file := file st; preview := preview st; urlInput := urlInput st;
         isGenerating := isGenerating st;
         generationStatus := s;
         generatedVideo := generatedVideo st; error := error st;
         isSettingsOpen := isSettingsOpen st; keys := keys st |}
  | SetGeneratedVideo v =>
      {| file := file st; preview := preview st; urlInput := urlInput st;
         isGenerating := isGenerating st;
         generationStatus := generationStatus st;
         generatedVideo := v; error := error st;
         isSettingsOpen := isSettingsOpen st; keys := keys st |}
  | SetError v =>
      {| file := file st; preview := preview st; urlInput := urlInput st;
         isGenerating := isGenerating st;
         generationStatus := generationStatus st;
         generatedVideo := generatedVideo st; error := v;
         isSettingsOpen := isSettingsOpen st; keys := keys st |}
  | SetIsSettingsOpen b =>
      {| file := file st; preview := preview st; urlInput := urlInput st;
         isGenerating := isGenerating st;
         generationStatus := generationStatus st;
         generatedVideo := generatedVideo st; error := error st;
         isSettingsOpen := b; keys := keys st |}
  | SaveKeys k s =>
      {| file := file st; preview := preview st; urlInput := urlInput st;
         isGenerating := isGenerating st;
         generationStatus := generationStatus st;
         generatedVideo := generatedVideo st; error := error st;
         isSettingsOpen := isSettingsOpen st;
         keys := UseApiKeys.saveKeys k s (keys st) |}
  end.

(** The state once the setter calls of a handler have been applied, in
    the order they were made and with no other handler in between. *)
Definition commit (ws : list write) (st : State) : State :=
  fold_left apply ws st.

(** [!preview] is false. *)
Definition has_preview (st : State) : bool :=
  match preview st with
  | Some s => negb (s =? "")%string
  | None => false
  end.

Definition handleUrlSubmit (st : State) : list write :=
  if (Text.trim (urlInput st) =? "")%string then []
  else if negb (Text.matches Text.url_pattern (urlInput st)) then
    [SetError
       (Js.Str "Please enter a valid URL starting with http:// or https://")]
  else
    [SetPreview (Some (urlInput st)); SetFile None;
     SetGeneratedVideo Js.Null; SetError Js.Null].

Definition clearAll : list write :=
  [SetFile None; SetPreview None; SetGeneratedVideo Js.Null;
   SetError Js.Null; SetUrlInput ""; SetGenerationStatus ""].

(** [handleSave] of the settings dialog, with what its two fields hold:
    [onSave] is [saveKeys] and [onClose] closes the dialog. *)
Definition handleSave (fieldKey fieldSecret : string) : list write :=
  [SaveKeys fieldKey fieldSecret; SetIsSettingsOpen false].

(** What the file picker reports about a file it refused. *)
Record FileError : Type := {
  code : string;
  message : string
}.

Record FileRejection : Type := {
  errors : list FileError
}.

Definition onDropRejected (fileRejections : list FileRejection) : list write :=
  match fileRejections with
  | [] => []
  | rejection :: _ =>
      match errors rejection with
      | first :: _ =>
          if (code first =? "file-too-large")%string then
            [SetError (Js.Str "File is too large. Max size is 1MB.")]
          else if (code first =? "file-invalid-type")%string then
            [SetError
               (Js.Str "Invalid file type. Only JPG, PNG, and WebP are allowed.")]
          else if negb (message first =? "")%string then
            [SetError (Js.Str (message first))]
          else [SetError (Js.Str "File upload failed.")]
      | [] => [SetError (Js.Str "File upload failed.")]
      end
  end.

(** What a run of a handler leaves behind: the setter calls, the events of
    the generation call it made, and the exception that left it, if
    any. *)
Record Handled : Type := {
  writes : list write;
  requests : list event;
  escaped : option thrown
}.

Definition timed_out_message : string :=
  "The request timed out. The video is taking longer than 30 minutes to generate.".

Definition default_message : string :=
  "Failed to generate video. Please check your API keys and try again.".

Definition charAt0 (s : string) : string :=
  match s with
  | String c _ => String c ""
  | EmptyString => ""
  end.

Definition slice1 (s : string) : string :=
  match s with
  | String _ rest => rest
  | EmptyString => ""
  end.

Section Generate.

(** Parts of the JavaScript runtime and of the transport that the source
    relies on and this file does not define: [String.prototype.toUpperCase],
    the message the engine gives a [TypeError], [JSON.stringify], and the
    body of the HTTP response an error carries ([err.response.data]; the
    transport model keeps the status only). *)
Variable toUpperCase : string -> string.
Variable type_error_message : string.
Variable stringify : Js.value -> string.
Variable response_data : thrown -> Js.value.

(** [parts.join(sep)] *)
Fixpoint join (sep : string) (parts : list Js.value) : result string :=
  match parts with
  | [] => ret ""
  | x :: rest =>
      sx <- (if Js.nullish x then ret "" else interpolate x) ;;
      match rest with
      | [] => ret sx
      | _ :: _ => tail <- join sep rest ;; ret (sx ++ sep ++ tail)
      end
  end.

(** The display form the callback of [handleGenerate] computes; [charAt]
    exists on strings only. *)
Definition displayStatus (status : Js.value) : result string :=
  match status with
  | Js.Str s => ret (toUpperCase (charAt0 s) ++ slice1 s)
  | _ => inl TypeError
  end.

(** The callback [handleGenerate] hands to the call: it throws when the
    display form cannot be computed, before any state is set. *)
Definition callback : WithCallback.callback :=
  fun status =>
    match displayStatus status with
    | inl e => Some e
    | inr _ => None
    end.

(** The statuses the callback put on the page, given those it was called
    with. *)
Definition shown (statuses : list Js.value) : list string :=
  flat_map (fun s => match displayStatus s with
                     | inr d => [d]
                     | inl _ => []
                     end) statuses.

(** [err.message] *)
Definition message_of (err : thrown) : string :=
  match err with
  | TypeError => type_error_message
  | AxiosError m _ => m
  | Error m => m
  end.

(** [err.response?.data] *)
Definition data_of (err : thrown) : Js.value :=
  match response_status err with
  | Some _ => response_data err
  | None => Js.Undefined
  end.

(** The value of [errorMessage] when line 172 is reached. *)
Definition errorMessage (err : thrown) : result Js.value :=
  if occurs "Timed out" (message_of err) then ret (Js.Str timed_out_message)
  else
    let detail := Js.optional (data_of err) "detail" in
    if Js.truthy detail then
      match detail with
      | Js.Arr items =>
          let firstError := nth 0 items Js.Undefined in
          loc <- get firstError "loc" ;;
          field <- (if Js.truthy loc then
                      match loc with
                      | Js.Arr parts => join "." parts
                      | _ => inl TypeError
                      end
                    else ret "field") ;;
          msg <- get firstError "msg" ;;
          text <- interpolate msg ;;
          ret (Js.Str ("API Error: " ++ text ++ " (" ++ field ++ ")"))
      | _ => ret (Js.Str ("API Error: " ++ stringify detail))
      end
    else
      let message := Js.optional (data_of err) "message" in
      if Js.truthy message then ret message
      else if negb (message_of err =? "")%string
      then ret (Js.Str (message_of err))
      else ret (Js.Str default_message).

(** [err.response?.status === 401 || err.response?.status === 403] *)
Definition unauthorized (err : thrown) : bool :=
  match response_status err with
  | Some status => (status =? 401) || (status =? 403)
  | None => false
  end.

(** The [catch] clause of [handleGenerate] (lines 147-176). *)
Definition handle_error (err : thrown) : list write * option thrown :=
  match errorMessage err with
  | inl e => ([], Some e)
  | inr m =>
      (SetError m
         :: (if unauthorized err then [SetIsSettingsOpen true] else []),
       None)
  end.

(** Lines 125-146: what is done with the response of the call.  These
    lines are inside the [try] block, so what they throw goes to the
    [catch] clause. *)
Definition handle_response (response : Js.value) : list write * option thrown :=
  match videoUrl response with
  | inl e => handle_error e
  | inr url =>
      if Js.truthy url then ([SetGeneratedVideo url], None)
      else
        match interpolate (Js.or (Js.optional response "status")
                                 (Js.Str "unknown")) with
        | inl e => handle_error e
        | inr status =>
            ([SetError
                (Js.Str ("Video generation completed but no URL found. Status: "
                           ++ status ++ ". Check console."))],
             None)
        end
  end.

(** The parameters [handleGenerate] calls [generateMemoryVideo] with. *)
Definition call_params (image : string) (st : State) : GenerateVideoParams :=
  {| imageUrl := image;
     apiKey := UseApiKeys.apiKey (keys st);
     apiSecret := UseApiKeys.apiSecret (keys st);
     onStatusUpdate := true |}.

(** The generation call [handleGenerate] makes. *)
Definition generation (srv : Server) (image : string) (st : State) (t0 : Z)
  : Run :=
  WithCallback.generateMemoryVideo srv (call_params image st) callback t0.

(** [handleGenerate], started at clock reading [t0] in state [st].  The
    result is [None] only where the model of the call ran out of fuel,
    which [handleGenerate_returns] shows never happens. *)
Definition handleGenerate (srv : Server) (t0 : Z) (st : State)
  : option Handled :=
  match preview st with
  | None => Some {| writes := []; requests := []; escaped := None |}
  | Some image =>
      if (image =? "")%string then
        Some {| writes := []; requests := []; escaped := None |}
      else if negb (UseApiKeys.hasKeys (keys st)) then
        Some {| writes :=
                  [SetIsSettingsOpen true;
                   SetError
                     (Js.Str "Please configure your API keys to continue.")];
                requests := [];
                escaped := None |}
      else
        let r := generation srv image st t0 in
        let ending :=
          match settled r with
          | Resolved response => Some (handle_response response)
          | Rejected err => Some (handle_error err)
          | OutOfFuel => None
          end in
        match ending with
        | None => None
        | Some (ws, out) =>
            Some {| writes :=
                      ([SetIsGenerating true;
                        SetGenerationStatus "Initializing...";
                        SetError Js.Null]
                         ++ map SetGenerationStatus (shown (updates (events r)))
                         ++ ws
                         ++ [SetIsGenerating false;
                             SetGenerationStatus ""])%list;
                    requests := events r;
                    escaped := out |}
        end
  end.

End Generate.

End App.

(** A page on which nothing has been done yet. *)
Definition fresh_page (typed : string) : App.State :=
  {| App.file := None; App.preview := None; App.urlInput := typed;
     App.isGenerating := false; App.generationStatus := "";
     App.generatedVideo := Js.Null; App.error := Js.Null;
     App.isSettingsOpen := false; App.keys := UseApiKeys.initial |}.

(** The setters that leave the inputs of the page alone: the file, the
    preview, the URL field and the keys. *)
Definition display_only (w : App.write) : bool :=
  match w with
  | App.SetIsGenerating _ | App.SetGenerationStatus _
  | App.SetGeneratedVideo _ | App.SetError _ | App.SetIsSettingsOpen _ => true
  | _ => false
  end.

(** The headers of a call made with the keys [k]. *)
Definition key_headers (k : UseApiKeys.keys) : list header :=
  [("Content-Type", "application/json");
   ("hf-api-key", UseApiKeys.apiKey k);
   ("hf-secret", UseApiKeys.apiSecret k)].

(** The runtime parts used when a handler is run on a concrete input:
    upper case for ASCII letters, the message of one engine, and a
    [JSON.stringify] that is good for [null] only, and plain decimals for
    numbers. *)
Definition ascii_upper (s : string) : string :=
  match s with
  | String c rest =>
      let n := nat_of_ascii c in
      if ((97 <=? n) && (n <=? 122))%nat
      then String (ascii_of_nat (n - 32)) rest
      else s
  | EmptyString => EmptyString
  end.

Definition demo_type_error : string :=
  "Cannot read properties of undefined".

Definition demo_stringify (v : Js.value) : string := "null".

(** The body every error response carries on the demo transport. *)
Definition demo_body (detail : Js.value) (e : thrown) : Js.value :=
  Js.Obj [("detail", detail)].

(** A page with an image previewed and both keys saved. *)
Definition ready_page : App.State :=
  {| App.file := None; App.preview := Some "https://example.com/cat.png";
     App.urlInput := "https://example.com/cat.png";
     App.isGenerating := false; App.generationStatus := "";
     App.generatedVideo := Js.Null; App.error := Js.Null;
     App.isSettingsOpen := false;
     App.keys := {| UseApiKeys.apiKey := "key";
                    UseApiKeys.apiSecret := "secret" |} |}.

(** The setter calls every started run of [handleGenerate] begins and
    ends with. *)
Definition run_start : list App.write :=
  [App.SetIsGenerating true; App.SetGenerationStatus "Initializing...";
   App.SetError Js.Null].

Definition run_end : list App.write :=
  [App.SetIsGenerating false; App.SetGenerationStatus ""].


(** A server whose initial response reports its status as a number. *)
Definition number_status_server : Server :=
  prompt_server
    (inr (Js.Obj [("request_id", Js.Str "r-1"); ("status", Js.Num 5)]))
    (fun _ => inr completed_body).

(* ================================================================== *)
(** ** Facts about reading a response *)
(* ================================================================== *)

Lemma get_readable (v : Js.value) (k : string) :
  Js.nullish v = false -> get v k = inr (Js.prop v k).
Proof. intros H. unfold get. now rewrite H. Qed.

Lemma get_nullish (v : Js.value) (k : string) :
  Js.nullish v = true -> get v k = inl TypeError.
Proof. intros H. unfold get. now rewrite H. Qed.

Lemma isVideoReady_readable (data : Js.value) :
  Js.nullish data = false -> isVideoReady data = inr (ready_value data).
Proof.
  intros H. unfold isVideoReady, ready_value, Js.or.
  rewrite !(get_readable _ _ H). cbn [bind].
  destruct (Js.truthy (Js.optional _ _)); [reflexivity|].
  destruct (Js.truthy (Js.prop data "output")); [reflexivity|].
  destruct (Js.truthy (Js.prop data "url")); reflexivity.
Qed.

Lemma isVideoReady_nullish (data : Js.value) :
  Js.nullish data = true -> isVideoReady data = inl TypeError.
Proof. intros H. unfold isVideoReady. now rewrite (get_nullish _ _ H). Qed.

Lemma not_ready_readable (data : Js.value) :
  not_ready data = true ->
  Js.nullish data = false /\ Js.truthy (ready_value data) = false.
Proof.
  unfold not_ready. destruct (Js.nullish data) eqn:N.
  - now rewrite (isVideoReady_nullish _ N).
  - rewrite (isVideoReady_readable _ N). intros H. split; [reflexivity|].
    now apply negb_true_iff.
Qed.

Lemma requestId_of_readable (data : Js.value) :
  Js.nullish data = false -> requestId_of data = inr (request_id data).
Proof.
  intros H. unfold requestId_of, request_id, Js.or.
  rewrite !(get_readable _ _ H). cbn [bind].
  now destruct (Js.truthy (Js.prop data "request_id")).
Qed.

(* ================================================================== *)
(** ** One pass through the loop body *)
(* ================================================================== *)

Lemma attempt_events (p : GenerateVideoParams) (reply : result Js.value) :
  fst (poll_attempt p reply) =
  match poll_status reply with
  | Some s => notify p s
  | None => []
  end.
Proof.
  unfold poll_attempt, poll_try, poll_status, status_or.
  destruct reply as [e|data]; [reflexivity|].
  destruct (Js.nullish data) eqn:N.
  - now rewrite (get_nullish _ _ N).
  - rewrite (get_readable _ _ N), (isVideoReady_readable _ N).
    destruct (_ || _); cbn [bind ret].
    + reflexivity.
    + destruct (Js.truthy (ready_value data)); [reflexivity|].
      destruct (_ || _); reflexivity.
Qed.

(** A reply with a terminal-success status ends the call with that body. *)
Lemma attempt_success (p : GenerateVideoParams) (data : Js.value) :
  Js.is_str (Js.prop data "status") "completed"
    || Js.is_str (Js.prop data "status") "success" = true ->
  poll_attempt p (inr data) =
  (notify p (Js.prop data "status"), Return data).
Proof.
  intros H.
  assert (N : Js.nullish data = false) by (destruct data; try reflexivity; discriminate H).
  assert (T : Js.truthy (Js.prop data "status") = true).
  { destruct (Js.prop data "status"); try discriminate H.
    cbn in *. destruct s; [discriminate H | reflexivity]. }
  assert (O : Js.or (Js.prop data "status") (Js.Str "in_progress")
              = Js.prop data "status") by (unfold Js.or; now rewrite T).
  unfold poll_attempt, poll_try. rewrite (get_readable _ _ N).
  rewrite !O, H. reflexivity.
Qed.

(** A reply that is ready ends the call with that body, whatever its
    status. *)
Lemma attempt_ready (p : GenerateVideoParams) (data : Js.value) :
  Js.nullish data = false ->
  Js.truthy (ready_value data) = true ->
  poll_attempt p (inr data) =
  (notify p (status_or "in_progress" data), Return data).
Proof.
  intros N R. unfold poll_attempt, poll_try.
  rewrite (get_readable _ _ N), (isVideoReady_readable _ N).
  cbn [bind ret]. rewrite R.
  fold (status_or "in_progress" data).
  destruct (_ || _); reflexivity.
Qed.

(** What the [catch] clause does with the error of a failed GET. *)
Lemma attempt_error (p : GenerateVideoParams) (e : thrown) :
  poll_attempt p (inl e) = ([], poll_catch e).
Proof. reflexivity. Qed.

Lemma attempt_pending (p : GenerateVideoParams) (data : Js.value) :
  pending data = true ->
  poll_attempt p (inr data) =
  (notify p (status_or "in_progress" data), Continue).
Proof.
  unfold pending, terminal_status. intros H.
  apply andb_true_iff in H as [NR T].
  apply not_ready_readable in NR as [N R].
  apply negb_true_iff in T.
  apply orb_false_iff in T as [T T4].
  apply orb_false_iff in T as [T T3].
  unfold poll_attempt, poll_try.
  rewrite (get_readable _ _ N), (isVideoReady_readable _ N).
  cbn [bind ret]. rewrite R.
  fold (status_or "in_progress" data). rewrite T, T3, T4. reflexivity.
Qed.

(** A [failed] or [nsfw] status on a body that is not ready: the error
    built on line 134 is raised inside the [try] block, reaches the [catch]
    clause of line 139, carries no [response] and is dropped there. *)
Lemma attempt_failed (p : GenerateVideoParams) (data : Js.value) :
  not_ready data = true ->
  Js.is_str (Js.prop data "status") "failed"
    || Js.is_str (Js.prop data "status") "nsfw" = true ->
  poll_try p (inr data) =
    (notify p (Js.prop data "status"),
     reason <- interpolate (Js.or (Js.prop data "error")
                                  (Js.prop data "status")) ;;
     inl (Error ("Video generation failed: " ++ reason)))
  /\ poll_attempt p (inr data) = (notify p (Js.prop data "status"), Continue).
Proof.
  intros NR H. apply not_ready_readable in NR as [N R].
  assert (T : Js.truthy (Js.prop data "status") = true).
  { destruct (Js.prop data "status"); try discriminate H.
    cbn in *. destruct s; [discriminate H | reflexivity]. }
  assert (C : Js.is_str (Js.prop data "status") "completed"
              || Js.is_str (Js.prop data "status") "success" = false).
  { destruct (Js.prop data "status"); try reflexivity. cbn in *.
    destruct (s =? "failed")%string eqn:E1.
    - apply String.eqb_eq in E1. now subst s.
    - destruct (s =? "nsfw")%string eqn:E2; [|discriminate H].
      apply String.eqb_eq in E2. now subst s. }
  assert (E : poll_try p (inr data) =
    (notify p (Js.prop data "status"),
     reason <- interpolate (Js.or (Js.prop data "error")
                                  (Js.prop data "status")) ;;
     inl (Error ("Video generation failed: " ++ reason)))).
  { unfold poll_try.
    rewrite !(get_readable _ _ N), (isVideoReady_readable _ N).
    cbn [bind ret]. rewrite R.
    assert (O : Js.or (Js.prop data "status") (Js.Str "in_progress")
                = Js.prop data "status") by (unfold Js.or; now rewrite T).
    rewrite !O, C, H. reflexivity. }
  split; [exact E|]. unfold poll_attempt. rewrite E.
  unfold interpolate. now destruct (Js.to_string _).
Qed.

(* ================================================================== *)
(** ** The polling loop *)
(* ================================================================== *)

Lemma prefix_prefix (a b : list event) (r : Run) :
  prefix a (prefix b r) = prefix (a ++ b) r.
Proof. unfold prefix. cbn. now rewrite app_assoc. Qed.

Lemma prefix_nil (r : Run) : prefix [] r = r.
Proof. now destruct r. Qed.

Lemma count_gets_app (a b : list event) :
  count_gets (a ++ b) = (count_gets a + count_gets b)%nat.
Proof. unfold count_gets. now rewrite filter_app, length_app. Qed.

Lemma count_gets_notify (p : GenerateVideoParams) (s : Js.value) :
  count_gets (notify p s) = 0%nat.
Proof. unfold notify. now destruct (onStatusUpdate p). Qed.

Section LoopFacts.

Variable srv : Server.
Variable p : GenerateVideoParams.
Variable statusUrl : Js.value.
Variable startTime : Z.

Local Abbreviation loop := (poll_loop srv p statusUrl startTime).
Local Abbreviation pass := (iteration srv p statusUrl).

Lemma after_poll_ge (now : Z) (i : nat) :
  now + POLLING_INTERVAL <= after_poll srv now i.
Proof. unfold after_poll, after_wait. lia. Qed.

Lemma clock_after_ge (k : nat) : forall now i,
  now + Z.of_nat k * POLLING_INTERVAL <= clock_after srv now i k.
Proof.
  induction k as [|k IH]; intros now i; cbn [clock_after]; [lia|].
  specialize (IH (after_poll srv now i) (S i)).
  pose proof (after_poll_ge now i). lia.
Qed.

Lemma clock_after_S (k : nat) : forall now i,
  clock_after srv now i (S k) = after_poll srv (clock_after srv now i k) (i + k).
Proof.
  induction k as [|k IH]; intros now i.
  - cbn. now rewrite Nat.add_0_r.
  - change (clock_after srv now i (S (S k)))
      with (clock_after srv (after_poll srv now i) (S i) (S k)).
    rewrite IH. cbn [clock_after]. f_equal. lia.
Qed.

Lemma clock_after_mono (j k : nat) (now : Z) (i : nat) :
  (j <= k)%nat -> clock_after srv now i j <= clock_after srv now i k.
Proof.
  induction 1 as [|k _ IH]; [lia|].
  rewrite clock_after_S.
  pose proof (after_poll_ge (clock_after srv now i k) (i + k)).
  unfold POLLING_INTERVAL in *. lia.
Qed.

Lemma enough_next (f : nat) (now : Z) (i : nat) :
  enough startTime (S f) now -> enough startTime f (after_poll srv now i).
Proof.
  unfold enough. pose proof (after_poll_ge now i).
  unfold POLLING_INTERVAL in *. lia.
Qed.

Lemma enough_pos (f : nat) (now : Z) :
  enough startTime f now -> within_budget startTime now -> exists f', f = S f'.
Proof.
  unfold enough, within_budget. destruct f; [lia|]. now exists f.
Qed.

Lemma loop_timeout (f : nat) (now : Z) (i : nat) :
  ~ within_budget startTime now -> loop (S f) now i = rejected timeout_error now.
Proof.
  unfold within_budget. intros H. cbn [poll_loop].
  destruct (Z.ltb_spec (now - startTime) TIMEOUT_MS); [lia | reflexivity].
Qed.

Lemma loop_pass (f : nat) (now : Z) (i : nat) :
  within_budget startTime now ->
  loop (S f) now i =
  prefix (pass i)
    match decision srv p i with
    | Continue => loop f (after_poll srv now i) (S i)
    | Return data => resolved data (after_poll srv now i)
    | Throw e => rejected e (after_poll srv now i)
    end.
Proof.
  unfold within_budget. intros H. cbn [poll_loop].
  destruct (Z.ltb_spec (now - startTime) TIMEOUT_MS); [|lia].
  now destruct (decision srv p i).
Qed.

(** The loop never stops for lack of fuel. *)
Lemma loop_settles (f : nat) : forall now i,
  enough startTime f now -> settled (loop (S f) now i) <> OutOfFuel.
Proof.
  induction f as [|f IH]; intros now i E.
  - rewrite loop_timeout; [discriminate|]. unfold enough, within_budget in *. lia.
  - destruct (Z.lt_ge_cases (now - startTime) TIMEOUT_MS) as [B|B].
    + rewrite (loop_pass _ _ _ B).
      destruct (decision srv p i); cbn; try discriminate.
      apply IH. now apply enough_next.
    + rewrite loop_timeout; [discriminate|]. unfold within_budget. lia.
Qed.

(** As long as the passes decide to continue and the budget is open, the
    loop is where the clock and the poll counter say. *)
Lemma loop_reach (k : nat) : forall f now i,
  enough startTime f now ->
  (forall j, (j < k)%nat -> decision srv p (i + j) = Continue) ->
  (forall j, (j < k)%nat -> within_budget startTime (clock_after srv now i j)) ->
  exists f',
    enough startTime f' (clock_after srv now i k) /\
    loop (S f) now i =
    prefix (flat_map pass (seq i k))
           (loop (S f') (clock_after srv now i k) (i + k)).
Proof.
  induction k as [|k IH]; intros f now i E C B.
  - exists f. split; [exact E|]. cbn [seq flat_map clock_after].
    now rewrite prefix_nil, Nat.add_0_r.
  - assert (B0 : within_budget startTime now) by (apply (B 0%nat); lia).
    destruct (enough_pos _ _ E B0) as [f0 ->].
    rewrite (loop_pass _ _ _ B0).
    assert (C0 : decision srv p i = Continue).
    { rewrite <- (Nat.add_0_r i). apply C. lia. }
    rewrite C0.
    destruct (IH f0 (after_poll srv now i) (S i)) as (f' & E' & EQ).
    + now apply enough_next.
    + intros j Hj. replace (S i + j)%nat with (i + S j)%nat by lia.
      apply C. lia.
    + intros j Hj. apply (B (S j)). lia.
    + exists f'. split; [exact E'|]. rewrite EQ, prefix_prefix.
      cbn [seq flat_map clock_after].
      now replace (S i + k)%nat with (i + S k)%nat by lia.
Qed.

(** The budget being open when pass [k] begins, it was open before. *)
Lemma budget_before (now : Z) (i k : nat) :
  within_budget startTime (clock_after srv now i k) ->
  forall j, (j <= k)%nat -> within_budget startTime (clock_after srv now i j).
Proof.
  unfold within_budget. intros H j Hj.
  pose proof (clock_after_mono j k now i Hj). lia.
Qed.

(** The shape of every trace of the loop: whole passes, one GET each, and
    the clock where the passes left it. *)
Lemma loop_trace (f : nat) : forall now i,
  enough startTime f now ->
  exists k,
    events (loop (S f) now i) = flat_map pass (seq i k)
    /\ finished (loop (S f) now i) = clock_after srv now i k
    /\ forall j, (j < k)%nat -> within_budget startTime (clock_after srv now i j).
Proof.
  induction f as [|f IH]; intros now i E.
  - exists 0%nat. rewrite loop_timeout.
    + repeat split. intros j Hj. lia.
    + unfold enough, within_budget in *. lia.
  - destruct (Z.lt_ge_cases (now - startTime) TIMEOUT_MS) as [B|B].
    + rewrite (loop_pass _ _ _ B).
      destruct (decision srv p i) eqn:D.
      * destruct (IH (after_poll srv now i) (S i)) as (k & EV & FIN & OPEN).
        { now apply enough_next. }
        exists (S k). cbn [prefix events finished seq flat_map clock_after].
        rewrite EV, FIN. repeat split.
        intros [|j] Hj; [exact B|]. apply OPEN. lia.
      * exists 1%nat. cbn. rewrite app_nil_r. repeat split.
        intros j Hj. assert (j = 0)%nat as -> by lia. exact B.
      * exists 1%nat. cbn. rewrite app_nil_r. repeat split.
        intros j Hj. assert (j = 0)%nat as -> by lia. exact B.
    + exists 0%nat. rewrite loop_timeout.
      * repeat split. intros j Hj. lia.
      * unfold within_budget. lia.
Qed.

(** A script on which no pass ever decides: the loop runs the budget
    down and rejects with the timeout error. *)
Lemma loop_pending (f : nat) : forall now i,
  enough startTime f now ->
  (forall j, decision srv p j = Continue) ->
  exists k,
    loop (S f) now i =
    prefix (flat_map pass (seq i k))
           (rejected timeout_error (clock_after srv now i k))
    /\ TIMEOUT_MS <= clock_after srv now i k - startTime
    /\ forall j, (j < k)%nat -> within_budget startTime (clock_after srv now i j).
Proof.
  induction f as [|f IH]; intros now i E C.
  - exists 0%nat. rewrite loop_timeout.
    + cbn [seq flat_map clock_after]. rewrite prefix_nil.
      unfold enough in E. repeat split; [lia | intros j Hj; lia].
    + unfold enough, within_budget in *. lia.
  - destruct (Z.lt_ge_cases (now - startTime) TIMEOUT_MS) as [B|B].
    + rewrite (loop_pass _ _ _ B), C.
      destruct (IH (after_poll srv now i) (S i)) as (k & EQ & LATE & OPEN).
      { now apply enough_next. }
      { exact C. }
      exists (S k). rewrite EQ, prefix_prefix.
      cbn [seq flat_map clock_after].
      repeat split; [exact LATE|].
      intros [|j] Hj; [exact B|]. apply OPEN. lia.
    + exists 0%nat. rewrite loop_timeout.
      * cbn [seq flat_map clock_after]. rewrite prefix_nil.
        repeat split; [lia | intros j Hj; lia].
      * unfold within_budget. lia.
Qed.

Lemma count_gets_pass (i : nat) : count_gets (pass i) = 1%nat.
Proof.
  unfold iteration. rewrite attempt_events.
  change (count_gets (?a :: ?b :: ?l)) with (S (count_gets l)).
  destruct (poll_status _); [now rewrite count_gets_notify | reflexivity].
Qed.

Lemma count_gets_passes (k : nat) : forall i,
  count_gets (flat_map pass (seq i k)) = k.
Proof.
  induction k as [|k IH]; intros i; [reflexivity|].
  cbn [seq flat_map]. now rewrite count_gets_app, count_gets_pass, IH.
Qed.

End LoopFacts.

(* ================================================================== *)
(** ** The call as a whole *)
(* ================================================================== *)

Lemma poll_fuel_eq : poll_fuel = S 400.
Proof. reflexivity. Qed.

Lemma enough_at_start (now : Z) : enough now 400 now.
Proof. unfold enough, TIMEOUT_MS, POLLING_INTERVAL. lia. Qed.

Lemma open_at_start (now : Z) : within_budget now now.
Proof. unfold within_budget, TIMEOUT_MS. lia. Qed.

Lemma generate_post_failed srv p t0 e :
  post_reply srv = inl e ->
  generateMemoryVideo srv p t0 =
  prefix (submission p) (rejected e (submitted srv t0)).
Proof. intros H. unfold generateMemoryVideo. now rewrite H. Qed.

Lemma generate_unreadable srv p t0 data :
  post_reply srv = inr data ->
  Js.nullish data = true ->
  generateMemoryVideo srv p t0 =
  prefix (submission p) (rejected TypeError (submitted srv t0)).
Proof.
  intros H N. unfold generateMemoryVideo, after_post. rewrite H.
  cbn [or_reject]. now rewrite (isVideoReady_nullish _ N).
Qed.

Lemma generate_ready srv p t0 data :
  post_reply srv = inr data ->
  Js.nullish data = false ->
  Js.truthy (ready_value data) = true ->
  generateMemoryVideo srv p t0 =
  prefix (submission p) (resolved data (submitted srv t0)).
Proof.
  intros H N R. unfold generateMemoryVideo, after_post. rewrite H.
  cbn [or_reject]. rewrite (isVideoReady_readable _ N).
  cbn [or_reject]. now rewrite R.
Qed.

Lemma interpolate_printable (v : Js.value) :
  Js.printable v = true -> exists text, interpolate v = inr text.
Proof.
  unfold Js.printable, interpolate.
  destruct (Js.to_string v) as [text|]; [|discriminate]. now exists text.
Qed.

Lemma interpolate_unprintable (v : Js.value) :
  Js.printable v = false -> interpolate v = inl TypeError.
Proof.
  unfold Js.printable, interpolate. now destruct (Js.to_string v).
Qed.

(** What is falsy is printed without fail. *)
Lemma falsy_printable (v : Js.value) :
  Js.truthy v = false -> Js.printable v = true.
Proof. destruct v as [| |[|]| | | |]; try discriminate; reflexivity. Qed.

(** A response names its job, or not; the job it names can be followed,
    or not. *)
Lemma tracking_cases (data : Js.value) :
  named data = false
  \/ trackable data = true
  \/ (named data = true /\ trackable data = false).
Proof.
  destruct (named data) eqn:M; [|now left].
  destruct (trackable data); [now right; left | now right; right].
Qed.

Lemma trackable_named (data : Js.value) :
  trackable data = true ->
  named data = true
  /\ Js.printable (request_id data) = true
  /\ Js.printable (Js.prop data "status_url") = true.
Proof.
  unfold trackable. intros T.
  apply andb_true_iff in T as [T P2]. apply andb_true_iff in T as [T P1].
  now repeat split.
Qed.

Lemma generate_untrackable srv p t0 data :
  post_reply srv = inr data ->
  not_ready data = true ->
  named data = false ->
  generateMemoryVideo srv p t0 =
  prefix (submission p) (resolved data (submitted srv t0)).
Proof.
  intros H NR T. apply not_ready_readable in NR as [N R].
  apply orb_false_iff in T as [T1 T2].
  unfold generateMemoryVideo, after_post. rewrite H.
  cbn [or_reject]. rewrite (isVideoReady_readable _ N).
  cbn [or_reject]. rewrite R. cbn [negb].
  rewrite (requestId_of_readable _ N), (get_readable _ _ N).
  cbn [or_reject]. now rewrite T1, T2.
Qed.

(** A response that names its job by a request id or a status URL that a
    template literal cannot print: the [TypeError] of line 101 or 107
    rejects the call before any status update or poll. *)
Lemma generate_unprintable srv p t0 data :
  post_reply srv = inr data ->
  not_ready data = true ->
  named data = true ->
  trackable data = false ->
  generateMemoryVideo srv p t0 =
  prefix (submission p) (rejected TypeError (submitted srv t0)).
Proof.
  intros H NR M T. apply not_ready_readable in NR as [N R].
  unfold trackable in T. rewrite M in T. cbn [andb] in T.
  unfold generateMemoryVideo, after_post. rewrite H.
  cbn [or_reject]. rewrite (isVideoReady_readable _ N).
  cbn [or_reject]. rewrite R. cbn [negb].
  rewrite (requestId_of_readable _ N), (get_readable _ _ N).
  cbn [or_reject]. fold (submitted srv t0). unfold named in M.
  destruct (Js.truthy (Js.prop data "status_url")) eqn:U.
  - cbn [negb andb]. unfold track, job_started.
    destruct (Js.printable (request_id data)) eqn:P1.
    + cbn [andb] in T. apply interpolate_printable in P1 as [id ->].
      cbn [bind]. now rewrite (interpolate_unprintable _ T).
    + now rewrite (interpolate_unprintable _ P1).
  - cbn [orb] in M. rewrite M. cbn [negb andb].
    rewrite (falsy_printable _ U), andb_true_r in T.
    unfold status_template. now rewrite (interpolate_unprintable _ T).
Qed.

Lemma generate_tracked srv p t0 data :
  post_reply srv = inr data ->
  not_ready data = true ->
  trackable data = true ->
  generateMemoryVideo srv p t0 =
  prefix (submission p ++ notify p (status_or "Queued" data))
    (poll_loop srv p (poll_target data) (submitted srv t0)
       poll_fuel (submitted srv t0) 0).
Proof.
  intros H NR T. apply not_ready_readable in NR as [N R].
  apply trackable_named in T as (M & P1 & P2).
  unfold generateMemoryVideo, after_post. rewrite H.
  cbn [or_reject]. rewrite (isVideoReady_readable _ N).
  cbn [or_reject]. rewrite R. cbn [negb].
  rewrite (requestId_of_readable _ N), (get_readable _ _ N).
  cbn [or_reject]. unfold named in M. unfold poll_target.
  fold (submitted srv t0).
  assert (TR : forall u,
    Js.printable u = true ->
    track srv p data (request_id data) u (submitted srv t0) =
    prefix (notify p (status_or "Queued" data))
      (poll_loop srv p u (submitted srv t0) poll_fuel (submitted srv t0) 0)).
  { intros u PU. unfold track, job_started.
    apply interpolate_printable in P1 as [id ->].
    apply interpolate_printable in PU as [url ->].
    cbn [bind ret or_reject]. now rewrite (get_readable _ _ N). }
  destruct (Js.truthy (Js.prop data "status_url")) eqn:U.
  - cbn [negb andb]. now rewrite (TR _ P2), prefix_prefix.
  - cbn [orb] in M. rewrite M. cbn [negb andb].
    unfold status_template.
    destruct (interpolate_printable _ P1) as [id ->].
    cbn [bind ret or_reject].
    now rewrite (TR (Js.Str _) eq_refl), prefix_prefix.
Qed.

(** The promise of a call always settles: the loop counter is never the
    reason a call stops. *)
Theorem generate_settles srv p t0 :
  settled (generateMemoryVideo srv p t0) <> OutOfFuel.
Proof.
  destruct (post_reply srv) as [e|data] eqn:H.
  - now rewrite (generate_post_failed _ _ _ _ H).
  - destruct (Js.nullish data) eqn:N.
    + now rewrite (generate_unreadable _ _ _ _ H N).
    + destruct (Js.truthy (ready_value data)) eqn:R.
      * now rewrite (generate_ready _ _ _ _ H N R).
      * assert (NR : not_ready data = true).
        { unfold not_ready. now rewrite (isVideoReady_readable _ N), R. }
        destruct (tracking_cases data) as [M|[T|[M T]]].
        -- now rewrite (generate_untrackable _ _ _ _ H NR M).
        -- rewrite (generate_tracked _ _ _ _ H NR T), poll_fuel_eq.
           cbn [prefix settled]. apply loop_settles, enough_at_start.
        -- now rewrite (generate_unprintable _ _ _ _ H NR M T).
Qed.

Lemma count_gets_submission p : count_gets (submission p) = 0%nat.
Proof.
  unfold submission. now rewrite count_gets_app, count_gets_notify.
Qed.

Lemma polls_prefix evs r : polls (prefix evs r) = (count_gets evs + polls r)%nat.
Proof. unfold polls. cbn [prefix events]. apply count_gets_app. Qed.

(** A tracked call whose first [k] polls leave the loop running is, when
    poll [k] begins inside the budget, exactly [k] passes into the loop. *)
Lemma tracked_reach srv p t0 data k :
  post_reply srv = inr data ->
  not_ready data = true ->
  trackable data = true ->
  (forall j, (j < k)%nat -> decision srv p j = Continue) ->
  within_budget (submitted srv t0) (clock_after srv (submitted srv t0) 0 k) ->
  exists f,
    enough (submitted srv t0) f (clock_after srv (submitted srv t0) 0 k) /\
    generateMemoryVideo srv p t0 =
    prefix (submission p ++ notify p (status_or "Queued" data)
              ++ flat_map (iteration srv p (poll_target data)) (seq 0 k))
      (poll_loop srv p (poll_target data) (submitted srv t0)
         (S f) (clock_after srv (submitted srv t0) 0 k) k).
Proof.
  intros H NR T C B.
  rewrite (generate_tracked _ _ _ _ H NR T), poll_fuel_eq.
  destruct (loop_reach srv p (poll_target data) (submitted srv t0) k
              400 (submitted srv t0) 0) as (f & E & EQ).
  - apply enough_at_start.
  - exact C.
  - intros j Hj. apply (budget_before srv _ _ _ k B). lia.
  - exists f. split; [exact E|].
    rewrite EQ, prefix_prefix, <- app_assoc. reflexivity.
Qed.

Lemma polls_reached p data srv url k r :
  polls (prefix (submission p ++ notify p (status_or "Queued" data)
                   ++ flat_map (iteration srv p url) (seq 0 k)) r)
  = (k + polls r)%nat.
Proof.
  rewrite polls_prefix, !count_gets_app, count_gets_submission,
    count_gets_notify, count_gets_passes. reflexivity.
Qed.

(** ... and settles there when pass [k] decides to return or to throw. *)
Lemma tracked_decides srv p t0 data k :
  post_reply srv = inr data ->
  not_ready data = true ->
  trackable data = true ->
  (forall j, (j < k)%nat -> decision srv p j = Continue) ->
  within_budget (submitted srv t0) (clock_after srv (submitted srv t0) 0 k) ->
  let r := generateMemoryVideo srv p t0 in
  match decision srv p k with
  | Return d =>
      settled r = Resolved d /\ polls r = S k
      /\ finished r = clock_after srv (submitted srv t0) 0 (S k)
  | Throw e =>
      settled r = Rejected e /\ polls r = S k
      /\ finished r = clock_after srv (submitted srv t0) 0 (S k)
  | Continue =>
      (k < polls r)%nat
      /\ (~ within_budget (submitted srv t0)
              (clock_after srv (submitted srv t0) 0 (S k)) ->
          settled r = Rejected timeout_error /\ polls r = S k)
      /\ (within_budget (submitted srv t0)
              (clock_after srv (submitted srv t0) 0 (S k)) ->
          (S k < polls r)%nat)
  end.
Proof.
  intros H NR T C B r.
  destruct (tracked_reach _ p t0 _ k H NR T C B) as (f & E & EQ).
  subst r. rewrite EQ, polls_reached.
  rewrite (loop_pass _ _ _ _ _ _ _ B).
  rewrite (clock_after_S srv k (submitted srv t0) 0).
  cbn [Nat.add].
  destruct (decision srv p k) eqn:D.
  - destruct (enough_pos _ _ _ E B) as [f' ->].
    apply enough_next with (srv := srv) (i := k) in E.
    set (now' := after_poll srv _ k) in *.
    split; [|split].
    + rewrite !polls_prefix, count_gets_pass. lia.
    + intros NB. rewrite (loop_timeout _ _ _ _ _ _ _ NB).
      cbn [prefix settled]. split; [reflexivity|].
      rewrite !polls_prefix, count_gets_pass. cbn. lia.
    + intros B'. rewrite (loop_pass _ _ _ _ _ _ _ B').
      rewrite !polls_prefix, !count_gets_pass. lia.
  - cbn [prefix settled finished resolved].
    rewrite polls_prefix, count_gets_pass. cbn. repeat split. lia.
  - cbn [prefix settled finished rejected].
    rewrite polls_prefix, count_gets_pass. cbn. repeat split. lia.
Qed.

Lemma targets_app a b : targets (a ++ b) = (targets a ++ targets b)%list.
Proof. unfold targets. apply flat_map_app. Qed.

Lemma targets_notify p s : targets (notify p s) = [].
Proof. unfold notify. now destruct (onStatusUpdate p). Qed.

Lemma targets_submission p : targets (submission p) = [].
Proof. unfold submission. now rewrite targets_app, targets_notify. Qed.

Lemma targets_pass srv p url i : targets (iteration srv p url i) = [url].
Proof.
  unfold iteration. rewrite attempt_events.
  change (targets (?a :: Get ?u ?h :: ?l)) with (u :: targets l).
  destruct (poll_status _); [now rewrite targets_notify | reflexivity].
Qed.

Lemma targets_passes srv p url k : forall i,
  targets (flat_map (iteration srv p url) (seq i k)) = repeat url k.
Proof.
  induction k as [|k IH]; intros i; [reflexivity|].
  cbn [seq flat_map repeat]. now rewrite targets_app, targets_pass, IH.
Qed.

Lemma filter_post_notify p s : filter is_post (notify p s) = [].
Proof. unfold notify. now destruct (onStatusUpdate p). Qed.

Lemma filter_post_passes srv p url k : forall i,
  filter is_post (flat_map (iteration srv p url) (seq i k)) = [].
Proof.
  induction k as [|k IH]; intros i; [reflexivity|].
  cbn [seq flat_map]. rewrite filter_app, IH, app_nil_r.
  unfold iteration. rewrite attempt_events. cbn [filter is_post].
  destruct (poll_status _); [apply filter_post_notify | reflexivity].
Qed.

(** Every call is the submission followed by nothing, or by the status
    update of line 108 and whole passes of the loop. *)
Lemma generate_shape srv p t0 :
  exists tail,
    generateMemoryVideo srv p t0 = prefix (submission p) tail /\
    (events tail = [] \/
     exists data k,
       post_reply srv = inr data /\ not_ready data = true
       /\ trackable data = true
       /\ events tail =
          (notify p (status_or "Queued" data)
             ++ flat_map (iteration srv p (poll_target data)) (seq 0 k))%list).
Proof.
  destruct (post_reply srv) as [e|data] eqn:H.
  - eexists. split; [apply (generate_post_failed _ _ _ _ H)|]. now left.
  - destruct (Js.nullish data) eqn:N.
    + eexists. split; [apply (generate_unreadable _ _ _ _ H N)|]. now left.
    + destruct (Js.truthy (ready_value data)) eqn:R.
      * eexists. split; [apply (generate_ready _ _ _ _ H N R)|]. now left.
      * assert (NR : not_ready data = true).
        { unfold not_ready. now rewrite (isVideoReady_readable _ N), R. }
        destruct (tracking_cases data) as [M|[T|[M T]]].
        -- eexists. split; [apply (generate_untrackable _ _ _ _ H NR M)|].
           now left.
        -- destruct (loop_trace srv p (poll_target data) (submitted srv t0)
                       400 (submitted srv t0) 0 (enough_at_start _))
             as (k & EV & _).
           eexists. split.
           ++ rewrite (generate_tracked _ _ _ _ H NR T), <- prefix_prefix.
              reflexivity.
           ++ right. exists data, k. repeat split; try assumption.
              cbn [prefix events]. now rewrite poll_fuel_eq, EV.
        -- eexists. split; [apply (generate_unprintable _ _ _ _ H NR M T)|].
           now left.
Qed.

Lemma tracked_targets srv p t0 data :
  post_reply srv = inr data ->
  not_ready data = true ->
  trackable data = true ->
  let r := generateMemoryVideo srv p t0 in
  (1 <= polls r)%nat /\ targets (events r) = repeat (poll_target data) (polls r).
Proof.
  intros H NR T r. split.
  - pose proof (tracked_decides srv p t0 data 0 H NR T) as D.
    cbn zeta in D. fold r in D.
    assert (C : forall j, (j < 0)%nat -> decision srv p j = Continue)
      by (intros j Hj; lia).
    specialize (D C (open_at_start _)).
    destruct (decision srv p 0); lia.
  - subst r. rewrite (generate_tracked _ _ _ _ H NR T), poll_fuel_eq.
    destruct (loop_trace srv p (poll_target data) (submitted srv t0)
                400 (submitted srv t0) 0 (enough_at_start _)) as (k & EV & _).
    unfold polls. cbn [prefix events]. rewrite EV.
    rewrite !count_gets_app, count_gets_submission, count_gets_notify,
      count_gets_passes.
    rewrite !targets_app, targets_submission, targets_notify, targets_passes.
    reflexivity.
Qed.

Lemma is_url_truthy v : is_url v = true -> Js.truthy v = true.
Proof. destruct v; try discriminate. exact (fun H => H). Qed.

Lemma truthy_or_l a b : Js.truthy a = true -> Js.truthy (Js.or a b) = true.
Proof. intros H. unfold Js.or. now rewrite H. Qed.

Lemma truthy_or_r a b : Js.truthy b = true -> Js.truthy (Js.or a b) = true.
Proof. intros H. unfold Js.or. now destruct (Js.truthy a) eqn:E. Qed.

Lemma or_falsy a b : Js.truthy a = false -> Js.or a b = b.
Proof. intros H. unfold Js.or. now rewrite H. Qed.

Lemma spec_ready_is_ready data :
  spec_ready data = true ->
  Js.nullish data = false /\ Js.truthy (ready_value data) = true.
Proof.
  intros H. split.
  - destruct data; try reflexivity; discriminate H.
  - unfold spec_ready in H. unfold ready_value.
    apply orb_true_iff in H as [H|H]; [apply orb_true_iff in H as [H|H];
      [apply orb_true_iff in H as [H|H]|]|].
    + apply truthy_or_l. unfold Js.optional.
      destruct (Js.prop data "video"); try discriminate H.
      now apply is_url_truthy.
    + apply truthy_or_r, truthy_or_l. now apply is_url_truthy.
    + apply truthy_or_r, truthy_or_l.
      now destruct (Js.prop data "output").
    + apply truthy_or_r, truthy_or_r, truthy_or_l. now apply is_url_truthy.
Qed.

(* ================================================================== *)
(** ** C2: readiness of the initial response *)
(* ================================================================== *)

(** C2, as stated, fails: the empty object carries none of the four shapes,
    yet the call returns it at once without a single poll (it has no
    request id and no status URL to poll). *)
Lemma C2_counterexample :
  let data := Js.Obj [] in
  let r := generateMemoryVideo (prompt_server (inr data) (fun _ => inr data))
             demo 0 in
  ~ ((settled r = Resolved data /\ polls r = 0%nat) <-> spec_ready data = true).
Proof.
  cbv zeta. intros [H _].
  assert (E : spec_ready (Js.Obj []) = true) by (apply H; split; reflexivity).
  discriminate E.
Qed.

(** C2, amended: an initial response that carries a video URL under one of
    the four shapes is returned at once, with no poll.  An initial response
    on which the readiness check fails is polled at least once when it
    names a request id or a status URL, and is returned at once, with no
    poll, when it names neither. *)
Theorem C2_ready_response_skips_polling srv p t0 data :
  post_reply srv = inr data ->
  let r := generateMemoryVideo srv p t0 in
  (spec_ready data = true ->
   settled r = Resolved data /\ polls r = 0%nat
   /\ finished r = submitted srv t0)
  /\ (not_ready data = true -> trackable data = true -> (1 <= polls r)%nat)
  /\ (not_ready data = true -> named data = false ->
      settled r = Resolved data /\ polls r = 0%nat).
Proof.
  intros H r. subst r. split; [|split].
  - intros S. apply spec_ready_is_ready in S as [N R].
    rewrite (generate_ready _ _ _ _ H N R), polls_prefix, count_gets_submission.
    now repeat split.
  - intros NR T. apply (tracked_targets _ p t0 _ H NR T).
  - intros NR T.
    rewrite (generate_untrackable _ _ _ _ H NR T), polls_prefix,
      count_gets_submission.
    now repeat split.
Qed.

(** C2 at work on a response of the first shape. *)
Lemma C2_witness :
  let data := Js.Obj [("video", Js.Obj [("url", Js.Str "https://cdn/v.mp4")])] in
  let r := generateMemoryVideo (prompt_server (inr data) (fun _ => inr data))
             demo 0 in
  settled r = Resolved data /\ polls r = 0%nat /\ finished r = 0.
Proof.
  cbv zeta.
  apply (C2_ready_response_skips_polling
           (prompt_server
              (inr (Js.Obj [("video", Js.Obj [("url", Js.Str "https://cdn/v.mp4")])]))
              (fun _ => inr (Js.Obj [("video", Js.Obj [("url", Js.Str "https://cdn/v.mp4")])])))
           demo 0 _ eq_refl).
  reflexivity.
Defined.

(* ================================================================== *)
(** ** C5: the polling target *)
(* ================================================================== *)

(** C5: let the initial response be not ready.  When it names a request id
    (under [request_id] or [id]; a string, as the data model has it) and
    no [status_url], every poll goes to
    [https://platform.higgsfield.ai/requests/<id>/status].  When it
    supplies a [status_url] (a string; the request id being a string or
    absent), every poll goes to that value, unchanged.  In both cases at
    least one poll is issued. *)
Theorem C5_poll_target srv p t0 data :
  post_reply srv = inr data ->
  not_ready data = true ->
  let r := generateMemoryVideo srv p t0 in
  (forall id,
     Js.truthy (Js.prop data "status_url") = false ->
     request_id data = Js.Str id -> id <> "" ->
     (1 <= polls r)%nat /\
     targets (events r) =
     repeat (Js.Str ("https://platform.higgsfield.ai/requests/"
                       ++ id ++ "/status"))
            (polls r))
  /\ (forall url,
        Js.prop data "status_url" = Js.Str url -> url <> "" ->
        request_id data = Js.Undefined
          \/ (exists id, request_id data = Js.Str id) ->
        (1 <= polls r)%nat /\
        targets (events r) = repeat (Js.Str url) (polls r)).
Proof.
  intros H NR r. split.
  - intros id U I N.
    assert (TI : Js.truthy (request_id data) = true).
    { rewrite I. cbn. apply negb_true_iff. now apply String.eqb_neq. }
    assert (T : trackable data = true).
    { unfold trackable, named.
      rewrite TI, (falsy_printable _ U), I, orb_true_r. reflexivity. }
    pose proof (tracked_targets _ p t0 _ H NR T) as TT.
    unfold poll_target, status_template in TT. rewrite U, I in TT. exact TT.
  - intros url U N I.
    assert (TU : Js.truthy (Js.prop data "status_url") = true).
    { rewrite U. cbn. apply negb_true_iff. now apply String.eqb_neq. }
    assert (T : trackable data = true).
    { unfold trackable, named. rewrite TU, U.
      destruct I as [->|[id ->]]; reflexivity. }
    pose proof (tracked_targets _ p t0 _ H NR T) as TT.
    unfold poll_target in TT. rewrite TU, U in TT. exact TT.
Qed.

(** C5 at work: the job [r-42] is polled at its templated URL. *)
Lemma C5_witness :
  let r := generateMemoryVideo
             (prompt_server (inr queued_job) (fun _ => inr completed_body))
             demo 0 in
  (1 <= polls r)%nat /\
  targets (events r) =
  repeat (Js.Str "https://platform.higgsfield.ai/requests/r-42/status")
         (polls r).
Proof.
  cbv zeta.
  apply (proj1 (C5_poll_target
                  (prompt_server (inr queued_job) (fun _ => inr completed_body))
                  demo 0 queued_job eq_refl eq_refl) "r-42");
    [reflexivity | reflexivity | discriminate].
Defined.

(* ================================================================== *)
(** ** C6: a job that cannot be tracked *)
(* ================================================================== *)

(** C6: an initial response that is not ready and names neither a request
    id nor a status URL is what the call resolves with; the call does
    nothing after the POST: no status update, no wait, no poll. *)
Theorem C6_untrackable_response_is_returned srv p t0 data :
  post_reply srv = inr data ->
  not_ready data = true ->
  Js.truthy (request_id data) = false ->
  Js.truthy (Js.prop data "status_url") = false ->
  let r := generateMemoryVideo srv p t0 in
  settled r = Resolved data
  /\ polls r = 0%nat
  /\ events r = submission p
  /\ finished r = submitted srv t0.
Proof.
  intros H NR I U r. subst r.
  assert (T : named data = false) by (unfold named; now rewrite I, U).
  rewrite (generate_untrackable _ _ _ _ H NR T), polls_prefix,
    count_gets_submission.
  cbn [prefix resolved events settled finished]. rewrite app_nil_r.
  now repeat split.
Qed.

(** C6 at work on a response that only carries a message. *)
Lemma C6_witness :
  let data := Js.Obj [("message", Js.Str "accepted")] in
  let r := generateMemoryVideo (prompt_server (inr data) (fun _ => inr data))
             demo 0 in
  settled r = Resolved data
  /\ polls r = 0%nat
  /\ events r = submission demo
  /\ finished r = 0.
Proof.
  cbv zeta.
  apply (C6_untrackable_response_is_returned
           (prompt_server (inr (Js.Obj [("message", Js.Str "accepted")]))
                          (fun _ => inr (Js.Obj [("message", Js.Str "accepted")])))
           demo 0 _ eq_refl); reflexivity.
Defined.

(* ================================================================== *)
(** ** C7: the initial POST *)
(* ================================================================== *)

(** C7: every call issues exactly one POST, after the optional first status
    update and before anything else.  It goes to the generation endpoint
    with a 30000 ms timeout, the JSON content type and the two credential
    headers.  Its body has eight fields: the fixed prompt, the model
    identifier, the numeric seed, a one-element motions list whose entry
    has an id and a strength, the caller's image URL at the root and again
    inside the single [input_images] entry of type [image_url], and the two
    flags [enhance_prompt] and [check_nsfw], both true. *)
Theorem C7_initial_post srv p t0 :
  let body := payload p in
  (exists rest,
     events (generateMemoryVideo srv p t0) =
     (notify p (Js.Str "Initializing...")
        ++ Post "https://platform.higgsfield.ai/higgsfield-ai/dop/lite"
             body (headers p) 30000 :: rest)%list
     /\ filter is_post rest = [])
  /\ headers p = [("Content-Type", "application/json");
                  ("hf-api-key", apiKey p); ("hf-secret", apiSecret p)]
  /\ field_names body =
     ["prompt"; "image2video_model"; "seed"; "motions"; "image_url";
      "input_images"; "enhance_prompt"; "check_nsfw"]
  /\ Js.prop body "prompt" =
     Js.Str "recreate the uploaded image into a real-life motion like video"
  /\ Js.prop body "image2video_model" = Js.Str "dop-lite"
  /\ Js.prop body "seed" = Js.Num 36644
  /\ Js.prop body "motions" =
     Js.Arr [Js.Obj [("id", Js.Str "31177282-bde3-4870-b283-1135ca0a201a");
                     ("strength", Js.Num 1)]]
  /\ Js.prop body "image_url" = Js.Str (imageUrl p)
  /\ Js.prop body "input_images" =
     Js.Arr [Js.Obj [("type", Js.Str "image_url");
                     ("image_url", Js.Str (imageUrl p))]]
  /\ Js.prop body "enhance_prompt" = Js.Bool true
  /\ Js.prop body "check_nsfw" = Js.Bool true.
Proof.
  cbv zeta. split; [|now repeat split].
  destruct (generate_shape srv p t0) as (tail & EQ & [E|(data & k & _ & _ & _ & E)]).
  - exists (events tail). rewrite EQ. cbn [prefix events].
    unfold submission. rewrite <- app_assoc. split; [reflexivity|].
    now rewrite E.
  - exists (events tail). rewrite EQ. cbn [prefix events].
    unfold submission. rewrite <- app_assoc. split; [reflexivity|].
    now rewrite E, filter_app, filter_post_notify, filter_post_passes.
Qed.

(* ================================================================== *)
(** ** C10: the status updates of the submission phase *)
(* ================================================================== *)

(** C10: with a callback supplied, the first event of every call is the
    status update [Initializing...], and the POST comes right after it; so
    the callback runs whatever the POST brings.  When the initial response
    is not ready and can be tracked, the next event is one more status
    update, carrying the response's status or [Queued], and the first wait
    of the loop follows it. *)
Theorem C10_initial_status_updates srv p t0 :
  onStatusUpdate p = true ->
  exists rest,
    events (generateMemoryVideo srv p t0) =
    StatusUpdate (Js.Str "Initializing...")
      :: Post API_URL (payload p) (headers p) POST_TIMEOUT :: rest
    /\ forall data,
         post_reply srv = inr data ->
         not_ready data = true ->
         trackable data = true ->
         exists rest',
           rest = StatusUpdate (Js.or (Js.prop data "status") (Js.Str "Queued"))
                    :: Wait POLLING_INTERVAL :: rest'.
Proof.
  intros CB.
  destruct (generate_shape srv p t0) as (tail & EQ & _).
  exists (events tail). split.
  - rewrite EQ. cbn [prefix events]. unfold submission, notify.
    now rewrite CB.
  - intros data H NR T.
    assert (EV : events (generateMemoryVideo srv p t0) =
                 (submission p ++ events tail)%list) by now rewrite EQ.
    rewrite (generate_tracked _ _ _ _ H NR T), poll_fuel_eq in EV.
    rewrite (loop_pass _ _ _ _ _ _ _ (open_at_start _)) in EV.
    cbn [prefix events] in EV. rewrite <- app_assoc in EV.
    apply app_inv_head in EV. rewrite <- EV.
    unfold notify at 1. rewrite CB. unfold iteration at 1.
    eexists. cbn [app]. reflexivity.
Qed.

(** C10 at work on a queued job that completes at the first poll. *)
Lemma C10_witness :
  exists rest,
    events (generateMemoryVideo
              (prompt_server (inr queued_job) (fun _ => inr completed_body))
              demo 0) =
    StatusUpdate (Js.Str "Initializing...")
      :: Post API_URL (payload demo) (headers demo) POST_TIMEOUT
      :: StatusUpdate (Js.Str "queued") :: Wait POLLING_INTERVAL :: rest.
Proof.
  destruct (C10_initial_status_updates
              (prompt_server (inr queued_job) (fun _ => inr completed_body))
              demo 0 eq_refl) as (rest & E & Q).
  destruct (Q queued_job eq_refl eq_refl eq_refl) as (rest' & E').
  exists rest'. rewrite E, E'. reflexivity.
Defined.

(* ================================================================== *)
(** ** C8: one status update per successful poll *)
(* ================================================================== *)

Lemma updates_app a b : updates (a ++ b) = (updates a ++ updates b)%list.
Proof. unfold updates. apply flat_map_app. Qed.

Lemma iteration_with_callback srv p url i :
  onStatusUpdate p = true ->
  iteration srv p url i =
  Wait POLLING_INTERVAL :: Get url (headers p)
    :: map StatusUpdate (status_list (poll_status (poll_reply srv i))).
Proof.
  intros CB. unfold iteration. rewrite attempt_events. unfold notify.
  rewrite CB. now destruct (poll_status _).
Qed.

Lemma updates_passes srv p url k : forall i,
  onStatusUpdate p = true ->
  updates (flat_map (iteration srv p url) (seq i k)) =
  flat_map (fun j => status_list (poll_status (poll_reply srv j))) (seq i k).
Proof.
  induction k as [|k IH]; intros i CB; [reflexivity|].
  cbn [seq flat_map]. rewrite updates_app, (IH _ CB).
  rewrite (iteration_with_callback _ _ _ _ CB). f_equal.
  now destruct (poll_status _).
Qed.

(** C8, as stated, fails: on [mute_server] the first poll succeeds with a
    [null] body.  Reading its status throws inside the [try] block and the
    [catch] clause drops the exception, so that successful poll reports
    nothing: two polls are made and one status is reported for them, where
    one update per successful poll, with the status or [in_progress],
    would give two. *)
Lemma C8_counterexample :
  let r := generateMemoryVideo mute_server demo 0 in
  polls r = 2%nat
  /\ updates (events r) =
     [Js.Str "Initializing..."; Js.Str "queued"; Js.Str "completed"]
  /\ ~ (updates (events r) =
        ([Js.Str "Initializing..."; Js.Str "queued"]
           ++ flat_map
                (fun i =>
                   match poll_reply mute_server i with
                   | inr body =>
                       [Js.or (Js.prop body "status") (Js.Str "in_progress")]
                   | inl _ => []
                   end)
                (seq 0 (polls r)))%list).
Proof.
  cbv zeta. split; [reflexivity|]. split; [reflexivity|].
  intros E. vm_compute in E. discriminate E.
Qed.

(** C8, amended: with a callback supplied, the trace of a call is the
    submission (the first status update, the POST and, when the job is
    tracked, the status update of the initial response) followed by one
    cycle per poll issued: the wait, the GET and, when the GET succeeded
    with a body other than [null], exactly one status update carrying the
    status of that body, or [in_progress] when it has none.  A GET that
    succeeded with a [null] body brings no status update.  A failed GET brings
    no status update.  The cycles are in the order of the polls and the
    trace ends with the last of them, so nothing is reported after the call
    has settled.  The list of values handed to the callback follows. *)
Theorem C8_status_update_per_poll srv p t0 :
  onStatusUpdate p = true ->
  let r := generateMemoryVideo srv p t0 in
  exists before url,
    events r =
    (StatusUpdate (Js.Str "Initializing...")
       :: Post API_URL (payload p) (headers p) POST_TIMEOUT
       :: map StatusUpdate before
       ++ flat_map
            (fun i =>
               Wait POLLING_INTERVAL :: Get url (headers p)
                 :: map StatusUpdate
                      (status_list (poll_status (poll_reply srv i))))
            (seq 0 (polls r)))%list
    /\ updates (events r) =
       (Js.Str "Initializing..." :: before
          ++ flat_map (fun i => status_list (poll_status (poll_reply srv i)))
               (seq 0 (polls r)))%list
    /\ (before = [] \/
        exists data,
          post_reply srv = inr data /\
          before = [Js.or (Js.prop data "status") (Js.Str "Queued")]).
Proof.
  intros CB r. subst r.
  destruct (generate_shape srv p t0)
    as (tail & EQ & [E|(data & k & H & _ & _ & E)]).
  - exists [], Js.Undefined.
    assert (P0 : polls (generateMemoryVideo srv p t0) = 0%nat).
    { rewrite EQ, polls_prefix, count_gets_submission. unfold polls.
      now rewrite E. }
    rewrite P0. rewrite EQ. cbn [prefix events]. rewrite E.
    unfold submission, notify. rewrite CB. cbn. now repeat split; left.
  - exists [status_or "Queued" data], (poll_target data).
    assert (Pk : polls (generateMemoryVideo srv p t0) = k).
    { rewrite EQ, polls_prefix, count_gets_submission. unfold polls.
      rewrite E, count_gets_app, count_gets_notify, count_gets_passes.
      reflexivity. }
    rewrite Pk. rewrite EQ. cbn [prefix events]. rewrite E.
    unfold submission, notify. rewrite CB.
    split; [|split].
    + cbn [app map]. do 3 f_equal.
      apply flat_map_ext. intros i. now apply iteration_with_callback.
    + cbn [app]. change (updates (?a :: Post ?u ?b ?h ?t :: ?c :: ?l))
        with (match a with StatusUpdate s => [s] | _ => [] end
              ++ match c with StatusUpdate s => [s] | _ => [] end
              ++ updates l)%list.
      cbn [app]. now rewrite (updates_passes _ _ _ _ _ CB).
    + right. exists data. now split.
Qed.

(** C8 at work on [flaky_server]. *)
Lemma C8_witness :
  let r := generateMemoryVideo flaky_server demo 0 in
  exists before url,
    events r =
    (StatusUpdate (Js.Str "Initializing...")
       :: Post API_URL (payload demo) (headers demo) POST_TIMEOUT
       :: map StatusUpdate before
       ++ flat_map
            (fun i =>
               Wait POLLING_INTERVAL :: Get url (headers demo)
                 :: map StatusUpdate
                      (status_list (poll_status (poll_reply flaky_server i))))
            (seq 0 (polls r)))%list
    /\ updates (events r) =
       (Js.Str "Initializing..." :: before
          ++ flat_map
               (fun i => status_list (poll_status (poll_reply flaky_server i)))
               (seq 0 (polls r)))%list
    /\ (before = [] \/
        exists data,
          post_reply flaky_server = inr data /\
          before = [Js.or (Js.prop data "status") (Js.Str "Queued")]).
Proof.
  exact (C8_status_update_per_poll flaky_server demo 0 eq_refl).
Defined.

(** The same call, evaluated: the failed second poll reports nothing. *)
Example flaky_updates :
  updates (events (generateMemoryVideo flaky_server demo 0)) =
  [Js.Str "Initializing..."; Js.Str "queued"; Js.Str "in_progress";
   Js.Str "completed"]
  /\ polls (generateMemoryVideo flaky_server demo 0) = 3%nat.
Proof. split; reflexivity. Qed.

(* ================================================================== *)
(** ** C9: a terminal-success status resolves the call *)
(* ================================================================== *)

Lemma videoUrl_not_ready d : not_ready d = true -> videoUrl d = inr Js.Null.
Proof.
  intros NR. apply not_ready_readable in NR as [N R].
  unfold videoUrl. rewrite !(get_readable _ _ N). cbn [bind].
  unfold ready_value in R.
  destruct (Js.truthy (Js.optional _ _)) eqn:V.
  { now rewrite (truthy_or_l _ _ V) in R. }
  rewrite (or_falsy _ _ V) in R.
  destruct (Js.truthy (Js.prop d "output")) eqn:O.
  { now rewrite (truthy_or_l _ _ O) in R. }
  rewrite (or_falsy _ _ O) in R.
  destruct (Js.truthy (Js.prop d "url")) eqn:U.
  { now rewrite (truthy_or_l _ _ U) in R. }
  now destruct (Js.prop d "output").
Qed.

(** C9: when poll [k] is reached (the polls before it left the loop running
    and the budget is still open) and its response carries the status
    [completed] or [success], the call resolves with that response body
    after exactly [k + 1] polls.  Nothing is asked of the body: when it
    fails the readiness check, the caller's own search for a video URL in
    it comes back empty-handed. *)
Theorem C9_terminal_status_resolves_without_url srv p t0 data k d :
  post_reply srv = inr data ->
  not_ready data = true ->
  trackable data = true ->
  (forall j, (j < k)%nat -> decision srv p j = Continue) ->
  within_budget (submitted srv t0) (clock_after srv (submitted srv t0) 0 k) ->
  poll_reply srv k = inr d ->
  Js.is_str (Js.prop d "status") "completed"
    || Js.is_str (Js.prop d "status") "success" = true ->
  let r := generateMemoryVideo srv p t0 in
  settled r = Resolved d
  /\ polls r = S k
  /\ (not_ready d = true -> videoUrl d = inr Js.Null).
Proof.
  intros H NR T C B P S r.
  pose proof (tracked_decides srv p t0 data k H NR T C B) as D.
  cbn zeta in D. fold r in D.
  unfold decision in D. rewrite P, (attempt_success _ _ S) in D. cbn [snd] in D.
  destruct D as (D1 & D2 & _). repeat split; try assumption.
  apply videoUrl_not_ready.
Qed.

(** C9 at work: the first poll says [completed] and carries no URL. *)
Lemma C9_witness :
  let r := generateMemoryVideo
             (prompt_server (inr queued_job) (fun _ => inr completed_body))
             demo 0 in
  settled r = Resolved completed_body
  /\ polls r = 1%nat
  /\ (not_ready completed_body = true -> videoUrl completed_body = inr Js.Null).
Proof.
  cbv zeta.
  apply (C9_terminal_status_resolves_without_url
           (prompt_server (inr queued_job) (fun _ => inr completed_body))
           demo 0 queued_job 0 completed_body eq_refl eq_refl eq_refl).
  - intros j Hj. lia.
  - exact (open_at_start _).
  - reflexivity.
  - reflexivity.
Defined.

(** The body of that call is not ready, and the caller finds no URL. *)
Example completed_body_has_no_url :
  not_ready completed_body = true
  /\ spec_ready completed_body = false
  /\ videoUrl completed_body = inr Js.Null.
Proof. repeat split. Qed.

(* ================================================================== *)
(** ** C3: errors raised by a poll *)
(* ================================================================== *)

Lemma client_error_iff e :
  is_client_error e = true <->
  exists status,
    response_status e = Some status
    /\ 400 <= status < 500 /\ status <> 429.
Proof.
  unfold is_client_error. destruct (response_status e) as [st|].
  - rewrite !andb_true_iff, negb_true_iff, Z.leb_le, Z.ltb_lt, Z.eqb_neq.
    split.
    + intros [[A B] C]. exists st. repeat split; assumption.
    + intros (st' & E & [A B] & C). injection E as ->. repeat split; assumption.
  - split; [discriminate|]. intros (st & E & _). discriminate E.
Qed.

(** C3: let poll [k] be reached and fail with the error [e].

    - When [e] carries an HTTP status in [400,500) other than 429, the call
      rejects with [e] itself and poll [k] is the last one.
    - Otherwise ([e] carries no response, or a status outside [400,500),
      or 429) the loop goes on against the budget that started with the
      submission: the call times out after poll [k] when that budget is
      used up at the next loop test, it polls again when it is not, and a
      later poll [m], reached inside the budget, whose response says
      [completed] resolves the call. *)
Theorem C3_poll_error_classification srv p t0 data k e :
  post_reply srv = inr data ->
  not_ready data = true ->
  trackable data = true ->
  (forall j, (j < k)%nat -> decision srv p j = Continue) ->
  within_budget (submitted srv t0) (clock_after srv (submitted srv t0) 0 k) ->
  poll_reply srv k = inl e ->
  let r := generateMemoryVideo srv p t0 in
  let start := submitted srv t0 in
  (forall status,
     response_status e = Some status ->
     400 <= status < 500 -> status <> 429 ->
     settled r = Rejected e /\ polls r = S k)
  /\ ((response_status e = None \/
       exists status,
         response_status e = Some status
         /\ (status < 400 \/ 500 <= status \/ status = 429)) ->
      (~ within_budget start (clock_after srv start 0 (S k)) ->
       settled r = Rejected timeout_error /\ polls r = S k)
      /\ (within_budget start (clock_after srv start 0 (S k)) ->
          (S k < polls r)%nat)
      /\ (forall m d,
            (k < m)%nat ->
            (forall j, (k < j < m)%nat -> decision srv p j = Continue) ->
            within_budget start (clock_after srv start 0 m) ->
            poll_reply srv m = inr d ->
            Js.is_str (Js.prop d "status") "completed" = true ->
            settled r = Resolved d /\ polls r = S m)).
Proof.
  intros H NR T C B P r start.
  pose proof (tracked_decides srv p t0 data k H NR T C B) as D.
  cbn zeta in D. fold r start in D.
  assert (DK : decision srv p k = poll_catch e).
  { unfold decision. now rewrite P, attempt_error. }
  rewrite DK in D. unfold poll_catch in D. split.
  - intros st E R N.
    assert (CE : is_client_error e = true).
    { apply client_error_iff. exists st. repeat split; (assumption || lia). }
    rewrite CE in D. destruct D as (D1 & D2 & _). now split.
  - intros O.
    assert (CE : is_client_error e = false).
    { destruct (is_client_error e) eqn:CE; [|reflexivity].
      apply client_error_iff in CE as (st & E & R & N).
      destruct O as [O|(st' & O & R')]; [congruence|].
      rewrite E in O. injection O as ->. lia. }
    rewrite CE in D. destruct D as (_ & D2 & D3).
    split; [exact D2|]. split; [exact D3|].
    intros m d KM CM BM PM SM.
    assert (CA : forall j, (j < m)%nat -> decision srv p j = Continue).
    { intros j Hj. destruct (Nat.lt_trichotomy j k) as [L|[->|G]].
      - now apply C.
      - rewrite DK. unfold poll_catch. now rewrite CE.
      - apply CM. lia. }
    pose proof (tracked_decides srv p t0 data m H NR T CA BM) as DM.
    cbn zeta in DM. fold r in DM.
    unfold decision in DM. rewrite PM, attempt_success in DM.
    + cbn [snd] in DM. destruct DM as (M1 & M2 & _). now split.
    + now rewrite SM.
Qed.

(** C3 at work: a 404 at the first poll rejects the call at once, a 429
    is followed by a second poll, whose [completed] response resolves it. *)
Lemma C3_witness :
  let r404 := generateMemoryVideo (refusing_server 404) demo 0 in
  let r429 := generateMemoryVideo (refusing_server 429) demo 0 in
  (settled r404 = Rejected (AxiosError "Request failed" (Some 404))
   /\ polls r404 = 1%nat)
  /\ (settled r429 = Resolved completed_body /\ polls r429 = 2%nat).
Proof.
  cbv zeta. split.
  - assert (C : forall j, (j < 0)%nat ->
                  decision (refusing_server 404) demo j = Continue)
      by (intros j Hj; lia).
    assert (B : within_budget (submitted (refusing_server 404) 0)
                  (clock_after (refusing_server 404)
                     (submitted (refusing_server 404) 0) 0 0))
      by exact (open_at_start _).
    apply (proj1 (C3_poll_error_classification (refusing_server 404) demo 0
                    queued_job 0 (AxiosError "Request failed" (Some 404))
                    eq_refl eq_refl eq_refl C B eq_refl) 404);
      [reflexivity | lia | lia].
  - assert (C : forall j, (j < 0)%nat ->
                  decision (refusing_server 429) demo j = Continue)
      by (intros j Hj; lia).
    assert (B : within_budget (submitted (refusing_server 429) 0)
                  (clock_after (refusing_server 429)
                     (submitted (refusing_server 429) 0) 0 0))
      by exact (open_at_start _).
    assert (O : response_status (AxiosError "Request failed" (Some 429)) = None
                \/ exists status,
                     response_status (AxiosError "Request failed" (Some 429))
                     = Some status
                     /\ (status < 400 \/ 500 <= status \/ status = 429)).
    { right. exists 429. split; [reflexivity|]. right. now right. }
    apply (proj2 (proj2 (proj2 (C3_poll_error_classification
                    (refusing_server 429) demo 0
                    queued_job 0 (AxiosError "Request failed" (Some 429))
                    eq_refl eq_refl eq_refl C B eq_refl) O))
             1%nat completed_body).
    + lia.
    + intros j Hj. lia.
    + unfold within_budget. vm_compute. reflexivity.
    + reflexivity.
    + reflexivity.
Defined.

(* ================================================================== *)
(** ** C4: a job that never finishes *)
(* ================================================================== *)

(** C4: when every poll is answered with a body that is not ready and whose
    status is none of [completed], [success], [failed], [nsfw], the call
    settles, and it does so by rejecting with the timeout error, whose
    message names the 2000 s limit.  Its trace is the submission followed
    by whole cycles, each a wait of 5000 ms, a GET and the status update of
    that response.  Every cycle began less than 2 000 000 ms after the
    submission, the rejection comes at the first loop test at which that
    much time has passed, and there are between 1 and 400 polls. *)
Theorem C4_pending_job_times_out srv p t0 data :
  post_reply srv = inr data ->
  not_ready data = true ->
  trackable data = true ->
  (forall i, exists d, poll_reply srv i = inr d /\ pending d = true) ->
  let r := generateMemoryVideo srv p t0 in
  let start := submitted srv t0 in
  settled r =
    Rejected
      (Error "Timed out waiting for video generation (2000s limit reached).")
  /\ occurs "2000s" "Timed out waiting for video generation (2000s limit reached)."
     = true
  /\ TIMEOUT_MS = 2000 * 1000
  /\ events r =
     (submission p ++ notify p (Js.or (Js.prop data "status") (Js.Str "Queued"))
        ++ flat_map
             (fun i =>
                Wait 5000 :: Get (poll_target data) (headers p)
                  :: match poll_status (poll_reply srv i) with
                     | Some s => notify p s
                     | None => []
                     end)
             (seq 0 (polls r)))%list
  /\ (1 <= polls r <= 400)%nat
  /\ (forall j, (j < polls r)%nat ->
        clock_after srv start 0 j - start < 2000000)
  /\ finished r = clock_after srv start 0 (polls r)
  /\ 2000000 <= finished r - start.
Proof.
  intros H NR T P r start.
  assert (C : forall j, decision srv p j = Continue).
  { intros j. destruct (P j) as (d & E & PD). unfold decision.
    now rewrite E, (attempt_pending _ _ PD). }
  destruct (loop_pending srv p (poll_target data) start 400 start 0
              (enough_at_start _) C) as (k & EQ & LATE & OPEN).
  assert (RUN : r = prefix (submission p ++ notify p (status_or "Queued" data)
                              ++ flat_map (iteration srv p (poll_target data))
                                   (seq 0 k))
                      (rejected timeout_error (clock_after srv start 0 k))).
  { subst r. rewrite (generate_tracked _ _ _ _ H NR T), poll_fuel_eq.
    fold start. rewrite EQ, prefix_prefix, <- app_assoc. reflexivity. }
  assert (PK : polls r = k).
  { rewrite RUN, polls_reached. unfold polls. cbn. lia. }
  rewrite PK. rewrite RUN.
  cbn [prefix rejected settled events finished]. rewrite app_nil_r.
  split; [reflexivity|]. split; [reflexivity|]. split; [reflexivity|].
  split; [|split; [|split; [|split]]].
  - unfold status_or. do 2 f_equal. apply flat_map_ext. intros i.
    unfold iteration. now rewrite attempt_events.
  - split.
    + destruct k; [|lia]. cbn [clock_after] in LATE.
      unfold TIMEOUT_MS in LATE. lia.
    + destruct k as [|k]; [lia|].
      assert (B := OPEN k (Nat.lt_succ_diag_r k)).
      pose proof (clock_after_ge srv k start 0) as G.
      unfold within_budget, TIMEOUT_MS, POLLING_INTERVAL in *. lia.
  - exact OPEN.
  - reflexivity.
  - exact LATE.
Qed.

(** C4 at work on [stalled_server]. *)
Lemma C4_witness :
  let r := generateMemoryVideo stalled_server demo 0 in
  settled r = Rejected timeout_error /\ (1 <= polls r <= 400)%nat.
Proof.
  cbv zeta.
  assert (P : forall i, exists d,
                poll_reply stalled_server i = inr d /\ pending d = true)
    by (intros i; exists in_progress_body; split; reflexivity).
  pose proof (C4_pending_job_times_out stalled_server demo 0 queued_job
                eq_refl eq_refl eq_refl P) as (S & _ & _ & _ & B & _).
  split; [exact S | exact B].
Defined.

(** On that server the call polls exactly 400 times, 5 s apart, and gives
    up 2000 s after the submission. *)
Example stalled_job_polls_400_times :
  let r := generateMemoryVideo stalled_server demo 0 in
  polls r = 400%nat /\ finished r = 2000000
  /\ settled r = Rejected timeout_error.
Proof. vm_compute. repeat split. Qed.

(* ================================================================== *)
(** ** C1: a terminal-failure status *)
(* ================================================================== *)

(** C1 does not hold of the code.  The error of line 134 is raised inside
    the [try] block whose [catch] clause (line 139) keeps every error that
    has no HTTP response; so a [failed] response does not end the call.
    The [try] block does build the message with the server's detail, but
    the loop decides to continue: on [failing_server] the call polls 400
    times and rejects with the timeout error, and on [recovering_server]
    it polls again after the failure and resolves. *)
Theorem C1_failed_status_keeps_polling :
  poll_try demo (inr failed_body) =
    ([StatusUpdate (Js.Str "failed")],
     inl (Error "Video generation failed: boom"))
  /\ poll_attempt demo (inr failed_body) =
       ([StatusUpdate (Js.Str "failed")], Continue)
  /\ (let r := generateMemoryVideo failing_server demo 0 in
      settled r = Rejected timeout_error /\ polls r = 400%nat)
  /\ (let r := generateMemoryVideo recovering_server demo 0 in
      settled r = Resolved completed_body /\ polls r = 2%nat).
Proof. vm_compute. repeat split. Qed.

(** The same for every response that is not ready and says [failed] or
    [nsfw], at whatever poll it arrives: the call does not settle there. *)
Lemma failed_status_is_not_terminal srv p t0 data k d :
  post_reply srv = inr data ->
  not_ready data = true ->
  trackable data = true ->
  (forall j, (j < k)%nat -> decision srv p j = Continue) ->
  within_budget (submitted srv t0) (clock_after srv (submitted srv t0) 0 k) ->
  poll_reply srv k = inr d ->
  not_ready d = true ->
  Js.is_str (Js.prop d "status") "failed"
    || Js.is_str (Js.prop d "status") "nsfw" = true ->
  let r := generateMemoryVideo srv p t0 in
  let start := submitted srv t0 in
  (within_budget start (clock_after srv start 0 (S k)) -> (S k < polls r)%nat)
  /\ (~ within_budget start (clock_after srv start 0 (S k)) ->
      settled r = Rejected timeout_error).
Proof.
  intros H NR T C B P ND F r start.
  pose proof (tracked_decides srv p t0 data k H NR T C B) as D.
  cbn zeta in D. fold r start in D.
  unfold decision in D. rewrite P in D.
  rewrite (proj2 (attempt_failed p d ND F)) in D. cbn [snd] in D.
  destruct D as (_ & D2 & D3). split; [exact D3|].
  intros NB. now apply D2.
Qed.

(* ================================================================== *)
(** ** Beyond the claims: how a call can end *)
(* ================================================================== *)


(** A pass returns only the body the GET brought, and only when its status
    is [completed] or [success] or the body is ready. *)
Lemma attempt_return p reply d :
  snd (poll_attempt p reply) = Return d ->
  reply = inr d /\ Js.nullish d = false
  /\ (Js.is_str (status_or "in_progress" d) "completed"
        || Js.is_str (status_or "in_progress" d) "success" = true
      \/ Js.truthy (ready_value d) = true).
Proof.
  unfold poll_attempt, poll_try. destruct reply as [e'|d'].
  - cbn [snd]. unfold poll_catch. now destruct (is_client_error e').
  - destruct (Js.nullish d') eqn:N.
    + rewrite (get_nullish _ _ N). discriminate.
    + rewrite !(get_readable _ _ N), (isVideoReady_readable _ N).
      cbn [bind ret]. fold (status_or "in_progress" d').
      destruct (_ || _) eqn:S.
      * intros H. cbn [snd ret] in H. injection H as ->.
        repeat split; try assumption. now left.
      * destruct (Js.truthy (ready_value d')) eqn:R.
        -- intros H. cbn [snd ret] in H. injection H as ->.
           repeat split; try assumption. now right.
        -- destruct (Js.is_str _ "failed" || _); [|discriminate].
           unfold interpolate. destruct (Js.to_string _); discriminate.
Qed.

Section LoopOutcomes.

Variable srv : Server.
Variable p : GenerateVideoParams.
Variable statusUrl : Js.value.
Variable startTime : Z.

Local Abbreviation loop := (poll_loop srv p statusUrl startTime).
Local Abbreviation pass := (iteration srv p statusUrl).

(** Everything about a run of the loop: the passes made, the clock, and
    which pass decided. *)
Lemma loop_outcome (f : nat) : forall now i,
  enough startTime f now ->
  exists k,
    events (loop (S f) now i) = flat_map pass (seq i k)
    /\ finished (loop (S f) now i) = clock_after srv now i k
    /\ (forall j, (j < k)%nat ->
          within_budget startTime (clock_after srv now i j))
    /\ match settled (loop (S f) now i) with
       | Resolved d =>
           exists k', k = S k' /\ decision srv p (i + k') = Return d
       | Rejected e =>
           (e = timeout_error
            /\ TIMEOUT_MS <= clock_after srv now i k - startTime)
           \/ exists k', k = S k' /\ decision srv p (i + k') = Throw e
       | OutOfFuel => False
       end.
Proof.
  induction f as [|f IH]; intros now i E.
  - exists 0%nat. rewrite loop_timeout.
    + cbn. repeat split; try (intros j Hj; lia).
      left. split; [reflexivity|]. unfold enough in E. lia.
    + unfold enough, within_budget in *. lia.
  - destruct (Z.lt_ge_cases (now - startTime) TIMEOUT_MS) as [B|B].
    + rewrite (loop_pass _ _ _ _ _ _ _ B).
      destruct (decision srv p i) eqn:D.
      * destruct (IH (after_poll srv now i) (S i))
          as (k & EV & FIN & OPEN & OUT).
        { now apply enough_next. }
        exists (S k). cbn [prefix events finished settled seq flat_map clock_after].
        rewrite EV, FIN. split; [reflexivity|]. split; [reflexivity|]. split.
        { intros [|j] Hj; [exact B|]. apply OPEN. lia. }
        destruct (settled (loop (S f) (after_poll srv now i) (S i))).
        -- destruct OUT as (k' & -> & DK). exists (S k'). split; [reflexivity|].
           now replace (i + S k')%nat with (S i + k')%nat by lia.
        -- destruct OUT as [[-> LATE]|(k' & -> & DK)].
           ++ left. now split.
           ++ right. exists (S k'). split; [reflexivity|].
              now replace (i + S k')%nat with (S i + k')%nat by lia.
        -- exact OUT.
      * exists 1%nat. cbn. rewrite app_nil_r. repeat split.
        { intros j Hj. assert (j = 0)%nat as -> by lia. exact B. }
        exists 0%nat. now rewrite Nat.add_0_r.
      * exists 1%nat. cbn. rewrite app_nil_r. repeat split.
        { intros j Hj. assert (j = 0)%nat as -> by lia. exact B. }
        right. exists 0%nat. now rewrite Nat.add_0_r.
    + exists 0%nat. rewrite loop_timeout.
      * cbn. repeat split; try (intros j Hj; lia). left. split; [reflexivity|lia].
      * unfold within_budget. lia.
Qed.

End LoopOutcomes.

(** The anatomy of a call: either nothing follows the submission, or the
    job is tracked and the loop makes [k] passes. *)
Lemma generate_anatomy srv p t0 :
  let r := generateMemoryVideo srv p t0 in
  let start := submitted srv t0 in
  (events r = submission p /\ finished r = start /\ polls r = 0%nat /\
   ((exists e, post_reply srv = inl e /\ settled r = Rejected e)
    \/ (exists d, post_reply srv = inr d /\ Js.nullish d = true
                  /\ settled r = Rejected TypeError)
    \/ (exists d, post_reply srv = inr d /\ Js.nullish d = false
                  /\ Js.truthy (ready_value d) = true
                  /\ settled r = Resolved d)
    \/ (exists d, post_reply srv = inr d /\ not_ready d = true
                  /\ named d = false /\ settled r = Resolved d)
    \/ (exists d, post_reply srv = inr d /\ not_ready d = true
                  /\ named d = true /\ trackable d = false
                  /\ settled r = Rejected TypeError)))
  \/ (exists data k,
        post_reply srv = inr data /\ not_ready data = true
        /\ trackable data = true
        /\ polls r = k
        /\ events r =
           (submission p ++ notify p (status_or "Queued" data)
              ++ flat_map (iteration srv p (poll_target data)) (seq 0 k))%list
        /\ finished r = clock_after srv start 0 k
        /\ (forall j, (j < k)%nat ->
              within_budget start (clock_after srv start 0 j))
        /\ match settled r with
           | Resolved d =>
               exists k', k = S k' /\ decision srv p k' = Return d
           | Rejected e =>
               (e = timeout_error
                /\ TIMEOUT_MS <= clock_after srv start 0 k - start)
               \/ exists k', k = S k' /\ decision srv p k' = Throw e
           | OutOfFuel => False
           end).
Proof.
  cbv zeta.
  assert (Q : forall x,
            generateMemoryVideo srv p t0 = prefix (submission p) x ->
            events x = [] -> finished x = submitted srv t0 ->
            events (generateMemoryVideo srv p t0) = submission p
            /\ finished (generateMemoryVideo srv p t0) = submitted srv t0
            /\ polls (generateMemoryVideo srv p t0) = 0%nat).
  { intros x -> EV FIN. unfold polls. cbn [prefix events finished].
    rewrite EV, app_nil_r, count_gets_submission. now repeat split. }
  destruct (post_reply srv) as [e|data] eqn:H.
  - left. pose proof (generate_post_failed _ p t0 _ H) as G.
    destruct (Q _ G eq_refl eq_refl) as (A & B & C).
    repeat split; try assumption. left. exists e. now rewrite G.
  - destruct (Js.nullish data) eqn:N.
    + left. pose proof (generate_unreadable _ p t0 _ H N) as G.
      destruct (Q _ G eq_refl eq_refl) as (A & B & C).
      repeat split; try assumption. right; left. exists data. now rewrite G.
    + destruct (Js.truthy (ready_value data)) eqn:R.
      * left. pose proof (generate_ready _ p t0 _ H N R) as G.
        destruct (Q _ G eq_refl eq_refl) as (A & B & C).
        repeat split; try assumption. right; right; left.
        exists data. now rewrite G.
      * assert (NR : not_ready data = true).
        { unfold not_ready. now rewrite (isVideoReady_readable _ N), R. }
        destruct (tracking_cases data) as [M|[T|[M T]]].
        -- left. pose proof (generate_untrackable _ p t0 _ H NR M) as G.
           destruct (Q _ G eq_refl eq_refl) as (A & B & C).
           repeat split; try assumption. right; right; right; left.
           exists data. now rewrite G.
        -- right. exists data.
           destruct (loop_outcome srv p (poll_target data) (submitted srv t0)
                       400 (submitted srv t0) 0 (enough_at_start _))
             as (k & EV & FIN & OPEN & OUT).
           exists k. rewrite (generate_tracked _ _ _ _ H NR T), poll_fuel_eq.
           rewrite polls_prefix. unfold polls.
           cbn [prefix events finished settled]. rewrite EV, FIN.
           rewrite !count_gets_app, count_gets_submission, count_gets_notify,
             count_gets_passes, <- app_assoc.
           repeat split; try assumption.
        -- left. pose proof (generate_unprintable _ p t0 _ H NR M T) as G.
           destruct (Q _ G eq_refl eq_refl) as (A & B & C).
           repeat split; try assumption. right; right; right; right.
           exists data. now rewrite G.
Qed.


(** X2: what a call can resolve with.  It is a body the server sent: the
    body of the POST response, with no poll made, or the body of the last
    poll, whose status is [completed] or [success] or which is ready.  It
    is never [null] or [undefined]. *)
Theorem X2_resolution_causes srv p t0 d :
  let r := generateMemoryVideo srv p t0 in
  settled r = Resolved d ->
  Js.nullish d = false
  /\ (post_reply srv = inr d /\ polls r = 0%nat
      \/ exists k,
           polls r = S k /\ poll_reply srv k = inr d
           /\ (Js.is_str (status_or "in_progress" d) "completed"
                 || Js.is_str (status_or "in_progress" d) "success" = true
               \/ Js.truthy (ready_value d) = true)).
Proof.
  intros r HS. subst r.
  destruct (generate_anatomy srv p t0)
    as [(_ & _ & P0 & C)|(data & k & H & NR & T & PK & _ & FIN & _ & OUT)].
  - destruct C as [(e' & H & S')|[(d' & H & N & S')|[(d' & H & N & _ & S')
                  |[(d' & H & NR & _ & S')|(d' & _ & _ & _ & _ & S')]]]];
      rewrite HS in S'; try discriminate S'; injection S' as ->.
    + split; [exact N|]. now left.
    + apply not_ready_readable in NR as [N _]. split; [exact N|]. now left.
  - rewrite HS in OUT. destruct OUT as (k' & -> & D).
    apply attempt_return in D as (D & N & W). split; [exact N|].
    right. exists k'. now repeat split.
Qed.


(** X2 at work on [flaky_server]. *)
Lemma X2_witness :
  let r := generateMemoryVideo flaky_server demo 0 in
  Js.nullish completed_body = false
  /\ (post_reply flaky_server = inr completed_body /\ polls r = 0%nat
      \/ exists k,
           polls r = S k /\ poll_reply flaky_server k = inr completed_body
           /\ (Js.is_str (status_or "in_progress" completed_body) "completed"
                 || Js.is_str (status_or "in_progress" completed_body) "success"
               = true
               \/ Js.truthy (ready_value completed_body) = true)).
Proof.
  exact (X2_resolution_causes flaky_server demo 0 completed_body eq_refl).
Defined.

(* ================================================================== *)
(** ** Beyond the claims: the cost of a call *)
(* ================================================================== *)

(** X3: no call polls more than 400 times, every poll begins while less
    than [TIMEOUT_MS] have passed since the POST was answered, and a call
    that polled [n] times took at least [n] polling intervals after the
    POST. *)
Theorem X3_poll_budget srv p t0 :
  let r := generateMemoryVideo srv p t0 in
  let start := submitted srv t0 in
  (polls r <= 400)%nat
  /\ (forall j, (j < polls r)%nat -> clock_after srv start 0 j - start < TIMEOUT_MS)
  /\ finished r = clock_after srv start 0 (polls r)
  /\ start + Z.of_nat (polls r) * POLLING_INTERVAL <= finished r.
Proof.
  cbv zeta.
  destruct (generate_anatomy srv p t0)
    as [(_ & FIN & P0 & _)|(data & k & _ & _ & _ & PK & _ & FIN & OPEN & _)].
  - rewrite P0, FIN. cbn. repeat split; lia.
  - rewrite PK, FIN. split; [|split; [exact OPEN|split; [reflexivity|]]].
    + destruct k as [|k]; [lia|].
      assert (B := OPEN k (Nat.lt_succ_diag_r k)).
      pose proof (clock_after_ge srv k (submitted srv t0) 0) as G.
      unfold within_budget, TIMEOUT_MS, POLLING_INTERVAL in *. lia.
    + apply clock_after_ge.
Qed.

Lemma traffic_app a b : traffic (a ++ b) = (traffic a ++ traffic b)%list.
Proof. unfold traffic. apply filter_app. Qed.

Lemma traffic_notify p s : traffic (notify p s) = [].
Proof. unfold notify. now destruct (onStatusUpdate p). Qed.

Lemma traffic_submission p :
  traffic (submission p) = [Post API_URL (payload p) (headers p) POST_TIMEOUT].
Proof. unfold submission. now rewrite traffic_app, traffic_notify. Qed.

Lemma traffic_pass srv p url i :
  traffic (iteration srv p url i) = [Wait POLLING_INTERVAL; Get url (headers p)].
Proof.
  unfold iteration. rewrite attempt_events.
  change (traffic (?a :: ?b :: ?l)) with (a :: b :: traffic l).
  destruct (poll_status _); [now rewrite traffic_notify | reflexivity].
Qed.

Lemma traffic_passes srv p url k : forall i,
  traffic (flat_map (iteration srv p url) (seq i k)) =
  flat_map (fun _ => [Wait POLLING_INTERVAL; Get url (headers p)]) (seq i k).
Proof.
  induction k as [|k IH]; intros i; [reflexivity|].
  cbn [seq flat_map]. now rewrite traffic_app, traffic_pass, IH.
Qed.

(** X4: the requests and waits of a call, status updates left aside, are
    one POST followed, once per poll, by a wait of [POLLING_INTERVAL] and
    a GET; all GETs go to one URL and carry the headers of the POST. *)
Theorem X4_traffic_shape srv p t0 :
  let r := generateMemoryVideo srv p t0 in
  exists url,
    traffic (events r) =
    Post API_URL (payload p) (headers p) POST_TIMEOUT
      :: flat_map (fun _ => [Wait 5000; Get url (headers p)])
           (seq 0 (polls r)).
Proof.
  cbv zeta.
  destruct (generate_anatomy srv p t0)
    as [(EV & _ & P0 & _)|(data & k & _ & _ & _ & PK & EV & _)].
  - exists Js.Undefined. now rewrite EV, P0, traffic_submission.
  - exists (poll_target data).
    rewrite EV, PK, !traffic_app, traffic_submission, traffic_notify,
      traffic_passes.
    reflexivity.
Qed.

(* ================================================================== *)
(** ** Beyond the claims: the callback and the protocol *)
(* ================================================================== *)

Lemma decision_callback srv p b i :
  decision srv (with_callback b p) i = decision srv p i.
Proof.
  unfold decision, poll_attempt, poll_try.
  destruct (poll_reply srv i) as [e|d]; [reflexivity|].
  destruct (Js.nullish d) eqn:N.
  - now rewrite (get_nullish _ _ N).
  - rewrite !(get_readable _ _ N), (isVideoReady_readable _ N).
    cbn [bind ret].
    destruct (_ || _); [reflexivity|].
    destruct (Js.truthy (ready_value d)); [reflexivity|].
    destruct (_ || _); reflexivity.
Qed.

Lemma loop_callback srv p b url start fuel : forall now i,
  let r := poll_loop srv p url start fuel now i in
  let r' := poll_loop srv (with_callback b p) url start fuel now i in
  settled r' = settled r /\ finished r' = finished r
  /\ traffic (events r') = traffic (events r).
Proof.
  induction fuel as [|fuel IH]; intros now i; cbv zeta; [now repeat split|].
  cbn [poll_loop]. destruct (now - start <? TIMEOUT_MS); [|now repeat split].
  rewrite decision_callback.
  destruct (IH (after_poll srv now i) (S i)) as (A & B & C).
  destruct (decision srv p i); cbn [prefix settled finished events resolved rejected];
    rewrite !traffic_app, !traffic_pass; repeat split; try assumption.
  now rewrite C.
Qed.

(** X5: supplying a callback changes nothing but the status updates: the
    call settles the same way at the same moment after the same requests
    and waits. *)
Theorem X5_callback_does_not_steer srv p t0 b :
  let r := generateMemoryVideo srv p t0 in
  let r' := generateMemoryVideo srv (with_callback b p) t0 in
  settled r' = settled r
  /\ finished r' = finished r
  /\ traffic (events r') = traffic (events r)
  /\ polls r' = polls r.
Proof.
  cbv zeta.
  assert (E : settled (generateMemoryVideo srv (with_callback b p) t0)
              = settled (generateMemoryVideo srv p t0)
              /\ finished (generateMemoryVideo srv (with_callback b p) t0)
                 = finished (generateMemoryVideo srv p t0)
              /\ traffic (events (generateMemoryVideo srv (with_callback b p) t0))
                 = traffic (events (generateMemoryVideo srv p t0))).
  { unfold generateMemoryVideo. cbn [prefix settled finished events].
    rewrite !traffic_app, !traffic_notify.
    change (payload (with_callback b p)) with (payload p).
    change (headers (with_callback b p)) with (headers p).
    destruct (post_reply srv) as [e|data]; [now repeat split|].
    cbn [or_reject]. unfold after_post.
    destruct (isVideoReady data) as [e|ready]; [now repeat split|].
    cbn [or_reject]. destruct (Js.truthy ready); [now repeat split|].
    cbn [negb].
    destruct (requestId_of data) as [e|rid]; [now repeat split|].
    cbn [or_reject].
    destruct (get data "status_url") as [e|su]; [now repeat split|].
    cbn [or_reject].
    assert (TR : forall u,
      let x := track srv p data rid u (t0 + Z.of_N (post_time srv)) in
      let x' := track srv (with_callback b p) data rid u
                  (t0 + Z.of_N (post_time srv)) in
      settled x' = settled x /\ finished x' = finished x
      /\ ([Post API_URL (payload p) (headers p) POST_TIMEOUT]
            ++ traffic (events x')
          = [Post API_URL (payload p) (headers p) POST_TIMEOUT]
              ++ traffic (events x))%list).
    { intros u. cbv zeta. unfold track.
      destruct (job_started rid u) as [e|line]; [now repeat split|].
      cbn [or_reject].
      destruct (get data "status") as [e|st]; [now repeat split|].
      cbn [or_reject prefix settled finished events].
      rewrite !traffic_app, !traffic_notify.
      destruct (loop_callback srv p b u (t0 + Z.of_N (post_time srv))
                  poll_fuel (t0 + Z.of_N (post_time srv)) 0) as (A & B & C).
      repeat split; try assumption. now rewrite C. }
    destruct (negb (Js.truthy su) && Js.truthy rid).
    { destruct (status_template rid) as [e|u]; [now repeat split | apply TR]. }
    destruct (negb (Js.truthy su) && negb (Js.truthy rid));
      [now repeat split | apply TR]. }
  destruct E as (A & B & C). repeat split; try assumption.
  unfold polls, count_gets.
  assert (F : forall evs, filter is_get evs = filter is_get (traffic evs)).
  { induction evs as [|[| | |] evs IH]; cbn; now rewrite ?IH. }
  now rewrite F, C, <- F.
Qed.

(* ================================================================== *)
(** ** Beyond the claims: what a poll response can do *)
(* ================================================================== *)

(** X6: a poll response on which the readiness check holds resolves the
    call with that response, whatever its status says - [failed]
    included. *)
Theorem X6_ready_poll_resolves srv p t0 data k d ready :
  post_reply srv = inr data ->
  not_ready data = true ->
  trackable data = true ->
  (forall j, (j < k)%nat -> decision srv p j = Continue) ->
  within_budget (submitted srv t0) (clock_after srv (submitted srv t0) 0 k) ->
  poll_reply srv k = inr d ->
  isVideoReady d = inr ready ->
  Js.truthy ready = true ->
  let r := generateMemoryVideo srv p t0 in
  settled r = Resolved d /\ polls r = S k.
Proof.
  intros H NR T C B P I R r.
  assert (N : Js.nullish d = false).
  { destruct (Js.nullish d) eqn:N; [|reflexivity].
    rewrite (isVideoReady_nullish _ N) in I. discriminate I. }
  rewrite (isVideoReady_readable _ N) in I. injection I as <-.
  pose proof (tracked_decides srv p t0 data k H NR T C B) as D.
  cbn zeta in D. fold r in D.
  unfold decision in D. rewrite P, (attempt_ready _ _ N R) in D.
  cbn [snd] in D. destruct D as (D1 & D2 & _). now split.
Qed.

(** X6 at work: the first poll says [failed] and carries an output URL. *)
Lemma X6_witness :
  let r := generateMemoryVideo
             (prompt_server (inr queued_job) (fun _ => inr failed_with_output))
             demo 0 in
  settled r = Resolved failed_with_output /\ polls r = 1%nat.
Proof.
  cbv zeta.
  apply (X6_ready_poll_resolves
           (prompt_server (inr queued_job) (fun _ => inr failed_with_output))
           demo 0 queued_job 0 failed_with_output
           (Js.Str "https://cdn/v.mp4") eq_refl eq_refl eq_refl).
  - intros j Hj. lia.
  - exact (open_at_start _).
  - reflexivity.
  - reflexivity.
  - reflexivity.
Defined.

(** X7: a poll answered with [null] (or with no body at all) is handled
    like a transient error: no status is reported for it and the loop
    goes on against the same budget. *)
Theorem X7_unreadable_poll_is_transient srv p t0 data k d :
  post_reply srv = inr data ->
  not_ready data = true ->
  trackable data = true ->
  (forall j, (j < k)%nat -> decision srv p j = Continue) ->
  within_budget (submitted srv t0) (clock_after srv (submitted srv t0) 0 k) ->
  poll_reply srv k = inr d ->
  Js.nullish d = true ->
  let r := generateMemoryVideo srv p t0 in
  let start := submitted srv t0 in
  iteration srv p (poll_target data) k =
    [Wait POLLING_INTERVAL; Get (poll_target data) (headers p)]
  /\ (within_budget start (clock_after srv start 0 (S k)) -> (S k < polls r)%nat)
  /\ (~ within_budget start (clock_after srv start 0 (S k)) ->
      settled r = Rejected timeout_error /\ polls r = S k).
Proof.
  intros H NR T C B P N r start.
  pose proof (tracked_decides srv p t0 data k H NR T C B) as D.
  cbn zeta in D. fold r start in D.
  assert (A : poll_attempt p (inr d) = ([], Continue)).
  { unfold poll_attempt, poll_try. now rewrite (get_nullish _ _ N). }
  unfold decision in D. rewrite P, A in D. cbn [snd] in D.
  destruct D as (_ & D2 & D3). split; [|split; assumption].
  unfold iteration. now rewrite P, A.
Qed.

(** X7 at work on [mute_server]. *)
Lemma X7_witness :
  let r := generateMemoryVideo mute_server demo 0 in
  (S 0 < polls r)%nat.
Proof.
  cbv zeta.
  assert (C : forall j, (j < 0)%nat -> decision mute_server demo j = Continue)
    by (intros j Hj; lia).
  apply (proj1 (proj2 (X7_unreadable_poll_is_transient mute_server demo 0
                         queued_job 0 Js.Null eq_refl eq_refl eq_refl C
                         (open_at_start _) eq_refl eq_refl))).
  unfold within_budget. vm_compute. reflexivity.
Defined.

(* ================================================================== *)
(** ** Beyond the claims: the caller's search for the URL *)
(* ================================================================== *)

Lemma or_truthy a b : Js.truthy a = true -> Js.or a b = a.
Proof. intros H. unfold Js.or. now rewrite H. Qed.

(** X8: the caller's search agrees with the readiness check.  On a body
    the check can read, the caller finds exactly the value the check found
    when that value is truthy, and [null] otherwise.  A list under
    [output] is found whole: its first element is never taken out. *)
Theorem X8_videoUrl_agrees_with_readiness d ready :
  isVideoReady d = inr ready ->
  (Js.truthy ready = true -> videoUrl d = inr ready)
  /\ (Js.truthy ready = false -> videoUrl d = inr Js.Null)
  /\ (forall items,
        Js.truthy (Js.optional (Js.prop d "video") "url") = false ->
        Js.prop d "output" = Js.Arr items ->
        videoUrl d = inr (Js.Arr items)).
Proof.
  intros I.
  assert (N : Js.nullish d = false).
  { destruct (Js.nullish d) eqn:N; [|reflexivity].
    rewrite (isVideoReady_nullish _ N) in I. discriminate I. }
  rewrite (isVideoReady_readable _ N) in I. injection I as <-.
  split; [|split].
  - intros R. unfold videoUrl. rewrite !(get_readable _ _ N). cbn [bind].
    unfold ready_value in *.
    destruct (Js.truthy (Js.optional _ _)) eqn:V.
    { now rewrite (or_truthy _ _ V). }
    rewrite (or_falsy _ _ V) in *.
    destruct (Js.truthy (Js.prop d "output")) eqn:O.
    { now rewrite (or_truthy _ _ O). }
    rewrite (or_falsy _ _ O) in *.
    destruct (Js.truthy (Js.prop d "url")) eqn:U.
    { now rewrite (or_truthy _ _ U). }
    rewrite (or_falsy _ _ U) in R.
    destruct (Js.prop d "output"); try discriminate R. discriminate O.
  - intros R. apply videoUrl_not_ready. unfold not_ready.
    now rewrite (isVideoReady_readable _ N), R.
  - intros items V O. unfold videoUrl. rewrite !(get_readable _ _ N).
    cbn [bind]. now rewrite V, O.
Qed.

(** X8 at work on a body whose output is a list of two URLs. *)
Lemma X8_witness :
  let d := Js.Obj [("output", Js.Arr [Js.Str "https://a"; Js.Str "https://b"])] in
  videoUrl d = inr (Js.Arr [Js.Str "https://a"; Js.Str "https://b"]).
Proof.
  cbv zeta.
  apply (proj1 (X8_videoUrl_agrees_with_readiness
                  (Js.Obj [("output",
                            Js.Arr [Js.Str "https://a"; Js.Str "https://b"])])
                  (Js.Arr [Js.Str "https://a"; Js.Str "https://b"])
                  eq_refl)).
  reflexivity.
Defined.

(* ================================================================== *)
(** ** Beyond the claims: the tests on the URL field *)
(* ================================================================== *)

Module TextFacts.

Import Text.

Lemma trimStart_empty s :
  trimStart s = "" <-> forallb is_white_space (list_ascii_of_string s) = true.
Proof.
  induction s as [|c s IH]; cbn; [tauto|].
  destruct (is_white_space c); cbn; [exact IH|]. split; discriminate.
Qed.

Lemma trimEnd_empty s :
  trimEnd s = "" <-> forallb is_white_space (list_ascii_of_string s) = true.
Proof.
  induction s as [|c s IH]; cbn; [tauto|].
  destruct (trimEnd s) as [|c' s'] eqn:E; cbn.
  - destruct (is_white_space c); cbn.
    + split; [intros _; now apply IH | reflexivity].
    + split; discriminate.
  - rewrite andb_true_iff. split; [discriminate|].
    intros [_ W]. apply IH in W. discriminate W.
Qed.

Lemma trimStart_white s :
  forallb is_white_space (list_ascii_of_string (trimStart s)) =
  forallb is_white_space (list_ascii_of_string s).
Proof.
  induction s as [|c s IH]; cbn; [reflexivity|].
  destruct (is_white_space c) eqn:W; cbn; [exact IH|]. now rewrite W.
Qed.

(** [trim] leaves nothing exactly of the strings made of white space. *)
Lemma trim_empty s :
  trim s = "" <-> forallb is_white_space (list_ascii_of_string s) = true.
Proof. unfold trim. now rewrite trimEnd_empty, trimStart_white. Qed.

Lemma in_ends_seq a b at_ x :
  In x (ends (Seq a b) at_) <->
  exists y, In y (ends a at_) /\ In x (ends b y).
Proof. cbn [ends]. apply in_flat_map. Qed.

Lemma in_ends_char c n s x :
  In x (ends (Char c) (n, s)) <-> exists rest, s = String c rest /\ x = (S n, rest).
Proof.
  cbn [ends fst snd]. destruct s as [|c' rest].
  - split; [intros [] | intros (r & E & _); discriminate E].
  - destruct (Ascii.eqb_spec c c') as [<-|NE]; cbn.
    + split.
      * intros [<-|[]]. now exists rest.
      * intros (r & [= <-] & ->). now left.
    + split; [intros [] | intros (r & [= E _] & _); now apply NE].
Qed.

Lemma in_ends_literal w r : forall n s x,
  In x (ends (literal w r) (n, s)) <->
  exists t, s = (w ++ t)%string /\ In x (ends r (n + String.length w, t))%nat.
Proof.
  induction w as [|c w IH]; intros n s x.
  - cbn [literal String.length append]. rewrite Nat.add_0_r. split.
    + intros H. now exists s.
    + now intros (t & -> & H).
  - cbn [literal]. rewrite in_ends_seq. split.
    + intros (y & Y & X). apply in_ends_char in Y as (rest & -> & ->).
      apply IH in X as (t & -> & X). exists t. split; [reflexivity|].
      now replace (n + String.length (String c w))%nat
        with (S n + String.length w)%nat by (cbn; lia).
    + intros (t & -> & X). exists (S n, (w ++ t)%string). split.
      * apply in_ends_char. now exists (w ++ t)%string.
      * apply IH. exists t. split; [reflexivity|].
        now replace (S n + String.length w)%nat
          with (n + String.length (String c w))%nat by (cbn; lia).
Qed.

Lemma in_ends_opt a at_ x :
  In x (ends (Opt a) at_) <-> In x (ends a at_) \/ x = at_.
Proof.
  cbn [ends]. rewrite in_app_iff. cbn. intuition congruence.
Qed.

(** [.+] finds a match exactly where a character other than a line
    terminator comes next. *)
Lemma plus_dot_matches n s :
  (exists x, In x (ends (Plus Dot) (n, s))) <->
  exists c rest, s = String c rest /\ is_line_terminator c = false.
Proof.
  cbn [ends fst snd]. destruct s as [|c rest].
  - split; [intros (x & []) | intros (c & r & E & _); discriminate E].
  - cbn [String.length rounds ends fst snd].
    destruct (is_line_terminator c) eqn:L; cbn [flat_map].
    + split; [intros (x & []) | intros (c' & r & [= <- <-] & L'); congruence].
    + split.
      * intros _. now exists c, rest.
      * intros _. exists (S n, rest). rewrite app_nil_r.
        apply in_or_app. right. now left.
Qed.

Lemma nonempty_iff {A} (l : list A) :
  match l with [] => false | _ :: _ => true end = true <-> exists x, In x l.
Proof.
  destruct l as [|a l].
  - split; [discriminate | intros (x & [])].
  - split; [intros _; exists a; now left | reflexivity].
Qed.

(** A pattern that begins with [^] is tried at the start of the subject
    only. *)
Lemma matches_anchored b s :
  matches (Seq Bol b) s = true <-> exists x, In x (ends b (0%nat, s)).
Proof.
  unfold matches. rewrite existsb_exists. split.
  - intros (i & _ & M). apply nonempty_iff in M as (x & X).
    apply in_ends_seq in X as (y & Y & X). cbn [ends fst] in Y.
    destruct i as [|i]; [|destruct Y].
    cbn in Y. destruct Y as [<-|[]]. now exists x.
  - intros (x & X). exists 0%nat. split.
    + apply in_seq. lia.
    + apply nonempty_iff. exists x. apply in_ends_seq.
      exists (0%nat, s). split; [now left | exact X].
Qed.

End TextFacts.

Lemma url_pattern_spec s :
  Text.matches Text.url_pattern s = true <-> Text.is_http_url s.
Proof.
  unfold Text.url_pattern, Text.is_http_url. rewrite TextFacts.matches_anchored. split.
  - intros (x & X).
    apply TextFacts.in_ends_literal in X as (t & -> & X).
    apply TextFacts.in_ends_seq in X as (y & Y & X).
    apply TextFacts.in_ends_opt in Y as [Y| ->].
    + apply TextFacts.in_ends_char in Y as (t' & -> & ->).
      apply TextFacts.in_ends_literal in X as (u & -> & X).
      assert (P : exists x, In x (Text.ends (Text.Plus Text.Dot)
                   ((S (0 + String.length "http") + String.length "://")%nat, u)))
        by now exists x.
      apply TextFacts.plus_dot_matches in P as (c & rest & -> & L).
      exists c, rest. split; [exact L|]. now right.
    + apply TextFacts.in_ends_literal in X as (u & -> & X).
      assert (P : exists x, In x (Text.ends (Text.Plus Text.Dot)
                   ((0 + String.length "http" + String.length "://")%nat, u)))
        by now exists x.
      apply TextFacts.plus_dot_matches in P as (c & rest & -> & L).
      exists c, rest. split; [exact L|]. now left.
  - intros (c & rest & L & [-> | ->]).
    + destruct (proj2 (TextFacts.plus_dot_matches 7 (String c rest)))
        as (x & X); [now exists c, rest|].
      exists x. apply TextFacts.in_ends_literal.
      exists ("://" ++ String c rest)%string. split; [reflexivity|].
      apply TextFacts.in_ends_seq. eexists. split.
      * apply TextFacts.in_ends_opt. right. reflexivity.
      * apply TextFacts.in_ends_literal. exists (String c rest).
        split; [reflexivity | exact X].
    + destruct (proj2 (TextFacts.plus_dot_matches 8 (String c rest)))
        as (x & X); [now exists c, rest|].
      exists x. apply TextFacts.in_ends_literal.
      exists ("s://" ++ String c rest)%string. split; [reflexivity|].
      apply TextFacts.in_ends_seq. eexists. split.
      * apply TextFacts.in_ends_opt. left. apply TextFacts.in_ends_char.
        eexists. split; reflexivity.
      * apply TextFacts.in_ends_literal. exists (String c rest).
        split; [reflexivity | exact X].
Qed.

(** X9: the test [/^https?:\/\/.+/] of the URL field accepts a string
    exactly when it begins with [http://] or [https://] and a character
    other than a line feed or a carriage return comes right after.
    Nothing is asked of what follows, and nothing may come before: white
    space in front makes the test fail. *)
Theorem X9_url_pattern_accepts s :
  Text.matches Text.url_pattern s = true <->
  exists c rest,
    Text.is_line_terminator c = false
    /\ (s = ("http://" ++ String c rest)%string
        \/ s = ("https://" ++ String c rest)%string).
Proof. exact (url_pattern_spec s). Qed.

(* ================================================================== *)
(** ** Beyond the claims: the handlers of the page *)
(* ================================================================== *)

Lemma http_url_not_blank s :
  Text.is_http_url s ->
  forallb Text.is_white_space (list_ascii_of_string s) = false.
Proof. now intros (c & rest & _ & [-> | ->]). Qed.

Lemma trim_blank s :
  (Text.trim s =? "")%string =
  forallb Text.is_white_space (list_ascii_of_string s).
Proof.
  destruct (forallb _ _) eqn:W.
  - apply String.eqb_eq. now apply TextFacts.trim_empty.
  - apply String.eqb_neq. intros E. apply TextFacts.trim_empty in E. congruence.
Qed.

(** X10: what [handleUrlSubmit] does with the URL field.  A field that is
    empty or all white space does nothing at all.  A field that holds an
    http(s) URL is taken over as the preview exactly as typed and clears
    the file, the video and the error.  Any other field only sets the
    error: the preview, the file and the video stay as they are. *)
Theorem X10_handleUrlSubmit_outcomes st :
  let s := App.urlInput st in
  let st' := App.commit (App.handleUrlSubmit st) st in
  (forallb Text.is_white_space (list_ascii_of_string s) = true ->
   App.handleUrlSubmit st = [])
  /\ (Text.is_http_url s ->
      App.preview st' = Some s /\ App.has_preview st' = true
      /\ App.file st' = None /\ App.generatedVideo st' = Js.Null
      /\ App.error st' = Js.Null)
  /\ (forallb Text.is_white_space (list_ascii_of_string s) = false ->
      ~ Text.is_http_url s ->
      App.error st' =
        Js.Str "Please enter a valid URL starting with http:// or https://"
      /\ App.preview st' = App.preview st /\ App.file st' = App.file st
      /\ App.generatedVideo st' = App.generatedVideo st).
Proof.
  cbv zeta. unfold App.handleUrlSubmit. rewrite trim_blank. split; [|split].
  - now intros ->.
  - intros U. rewrite (http_url_not_blank _ U).
    pose proof (proj2 (url_pattern_spec _) U) as M. rewrite M. cbn.
    repeat split. destruct U as (c & rest & _ & [-> | ->]); reflexivity.
  - intros W U. rewrite W.
    destruct (Text.matches Text.url_pattern (App.urlInput st)) eqn:M.
    + apply url_pattern_spec in M. contradiction.
    + cbn. now repeat split.
Qed.

(** X10 at work: a URL with a space in front is refused, the same URL
    without it is taken over. *)
Lemma X10_witness :
  (let st := fresh_page " https://example.com/a.png" in
   App.error (App.commit (App.handleUrlSubmit st) st) =
     Js.Str "Please enter a valid URL starting with http:// or https://")
  /\ (let st := fresh_page "https://example.com/a.png" in
      App.preview (App.commit (App.handleUrlSubmit st) st) =
        Some "https://example.com/a.png").
Proof.
  split; cbv zeta.
  - apply (proj2 (proj2 (X10_handleUrlSubmit_outcomes
                           (fresh_page " https://example.com/a.png")))).
    + reflexivity.
    + intros (c & rest & _ & [E | E]); discriminate E.
  - apply (proj1 (proj2 (X10_handleUrlSubmit_outcomes
                           (fresh_page "https://example.com/a.png")))).
    exists "e"%char, "xample.com/a.png". split; [reflexivity|]. now right.
Defined.

Lemma hasEnvKeys_spec envKey envSecret :
  UseApiKeys.hasEnvKeys envKey envSecret = true <->
  exists key secret,
    envKey = Some key /\ envSecret = Some secret
    /\ key <> "" /\ key <> "YOUR_API_KEY"
    /\ secret <> "" /\ secret <> "YOUR_API_SECRET".
Proof.
  unfold UseApiKeys.hasEnvKeys.
  destruct envKey as [key|], envSecret as [secret|]; cbn.
  - rewrite !andb_true_iff, !negb_true_iff, !String.eqb_neq. split.
    + intros [[[A B] C] D]. exists key, secret. now repeat split.
    + intros (k & s & [= <-] & [= <-] & A & B & C & D). now repeat split.
  - rewrite andb_false_r. cbn. split; [discriminate|].
    intros (k & s & _ & E & _). discriminate E.
  - split; [discriminate|]. intros (k & s & E & _). discriminate E.
  - split; [discriminate|]. intros (k & s & E & _). discriminate E.
Qed.

(** X11: the keys of the environment are adopted together or not at all.
    After the mount effect the hook has keys exactly when both variables
    are set, not empty and not the placeholders [YOUR_API_KEY] and
    [YOUR_API_SECRET]; the keys are then those two values, and otherwise
    both stay empty. *)
Theorem X11_env_keys_all_or_nothing envKey envSecret :
  let k := UseApiKeys.mount envKey envSecret UseApiKeys.initial in
  (UseApiKeys.hasKeys k = true <->
   exists key secret,
     envKey = Some key /\ envSecret = Some secret
     /\ key <> "" /\ key <> "YOUR_API_KEY"
     /\ secret <> "" /\ secret <> "YOUR_API_SECRET")
  /\ (UseApiKeys.hasKeys k = true ->
      envKey = Some (UseApiKeys.apiKey k)
      /\ envSecret = Some (UseApiKeys.apiSecret k))
  /\ (UseApiKeys.hasKeys k = false -> k = UseApiKeys.initial).
Proof.
  cbv zeta. unfold UseApiKeys.mount.
  destruct (UseApiKeys.hasEnvKeys envKey envSecret) eqn:H.
  - pose proof (proj1 (hasEnvKeys_spec _ _) H)
      as (key & secret & -> & -> & K1 & K2 & S1 & S2).
    assert (HK : UseApiKeys.hasKeys
                   {| UseApiKeys.apiKey := key; UseApiKeys.apiSecret := secret |}
                 = true).
    { unfold UseApiKeys.hasKeys. cbn.
      apply andb_true_iff. rewrite !negb_true_iff, !String.eqb_neq. now split. }
    rewrite HK. split; [|split].
    + split; [intros _; exists key, secret; now repeat split | reflexivity].
    + now split.
    + discriminate.
  - cbn. split; [|split].
    + split; [discriminate|]. intros E. apply hasEnvKeys_spec in E. congruence.
    + discriminate.
    + reflexivity.
Qed.

(* ================================================================== *)
(** ** Beyond the claims: a callback that can throw *)
(* ================================================================== *)

Section CallbackFacts.

Variable srv : Server.
Variable p : GenerateVideoParams.
Variable cb : WithCallback.callback.

(** The events of a pass do not depend on what the callback does. *)
Lemma callback_attempt_events reply :
  fst (WithCallback.poll_attempt p cb reply) = fst (poll_attempt p reply).
Proof.
  rewrite attempt_events.
  unfold WithCallback.poll_attempt, WithCallback.poll_try,
    WithCallback.notify, poll_status, notify, status_or.
  destruct reply as [e|d]; [reflexivity|].
  destruct (Js.nullish d) eqn:N.
  - now rewrite (get_nullish _ _ N).
  - rewrite !(get_readable _ _ N), (isVideoReady_readable _ N).
    cbn [bind ret].
    destruct (onStatusUpdate p); [destruct (cb _); [reflexivity|]|];
      (destruct (_ || _); [reflexivity|];
       destruct (Js.truthy (ready_value d)); [reflexivity|];
       destruct (_ || _); reflexivity).
Qed.


(** A pass returns only a body the GET brought, which is not [null]. *)
Lemma callback_attempt_return reply d :
  snd (WithCallback.poll_attempt p cb reply) = Return d ->
  reply = inr d /\ Js.nullish d = false.
Proof.
  unfold WithCallback.poll_attempt, WithCallback.poll_try, WithCallback.notify.
  destruct reply as [e'|d'].
  - cbn [snd]. unfold poll_catch. now destruct (is_client_error e').
  - destruct (Js.nullish d') eqn:N.
    + rewrite (get_nullish _ _ N). discriminate.
    + rewrite !(get_readable _ _ N), (isVideoReady_readable _ N).
      cbn [bind ret].
      destruct (onStatusUpdate p); [destruct (cb _) as [e|]|].
      * cbn [snd]. unfold poll_catch. now destruct (is_client_error e).
      * destruct (_ || _).
        { intros H. cbn [snd ret] in H. now injection H as ->. }
        destruct (Js.truthy (ready_value d')).
        { intros H. cbn [snd ret] in H. now injection H as ->. }
        destruct (Js.is_str _ "failed" || _); [|discriminate].
        unfold interpolate. destruct (Js.to_string _); discriminate.
      * destruct (_ || _).
        { intros H. cbn [snd ret] in H. now injection H as ->. }
        destruct (Js.truthy (ready_value d')).
        { intros H. cbn [snd ret] in H. now injection H as ->. }
        destruct (Js.is_str _ "failed" || _); [|discriminate].
        unfold interpolate. destruct (Js.to_string _); discriminate.
Qed.

Lemma callback_loop_settles url start (f : nat) : forall now i,
  enough start f now ->
  settled (WithCallback.poll_loop srv p cb url start (S f) now i) <> OutOfFuel.
Proof.
  induction f as [|f IH]; intros now i E; cbn [WithCallback.poll_loop].
  - destruct (Z.ltb_spec (now - start) TIMEOUT_MS) as [B|B]; [|discriminate].
    unfold enough in E. lia.
  - destruct (Z.ltb_spec (now - start) TIMEOUT_MS) as [B|B]; [|discriminate].
    destruct (WithCallback.decision srv p cb i); cbn; try discriminate.
    apply IH. now apply enough_next.
Qed.

Lemma callback_loop_resolved url start fuel d : forall now i,
  settled (WithCallback.poll_loop srv p cb url start fuel now i) = Resolved d ->
  Js.nullish d = false.
Proof.
  induction fuel as [|fuel IH]; intros now i; cbn [WithCallback.poll_loop];
    [discriminate|].
  destruct (now - start <? TIMEOUT_MS); [|discriminate].
  destruct (WithCallback.decision srv p cb i) as [|d'|e] eqn:D; cbn.
  - apply IH.
  - intros [= ->]. now apply callback_attempt_return in D.
  - discriminate.
Qed.



(** The promise of the call settles, whatever the callback does. *)
Lemma callback_generate_settles t0 :
  settled (WithCallback.generateMemoryVideo srv p cb t0) <> OutOfFuel.
Proof.
  unfold WithCallback.generateMemoryVideo.
  destruct (WithCallback.notify p cb _) as [evs [e|]]; [discriminate|].
  cbn [prefix settled].
  destruct (post_reply srv) as [e|data]; [discriminate|]. cbn [or_reject].
  unfold WithCallback.after_post.
  assert (TR : forall id u now,
            settled (WithCallback.track srv p cb data id u now) <> OutOfFuel).
  { intros id u now. unfold WithCallback.track.
    destruct (job_started id u); [discriminate|]. cbn [or_reject].
    destruct (get data "status"); [discriminate|]. cbn [or_reject].
    destruct (WithCallback.notify p cb _) as [evs' [e|]]; [discriminate|].
    cbn [prefix settled]. rewrite poll_fuel_eq.
    apply callback_loop_settles, enough_at_start. }
  destruct (isVideoReady data); [discriminate|]. cbn [or_reject].
  destruct (negb (Js.truthy v)); [|discriminate].
  destruct (requestId_of data); [discriminate|]. cbn [or_reject].
  destruct (get data "status_url"); [discriminate|]. cbn [or_reject].
  destruct (_ && _).
  { destruct (status_template _); [discriminate | apply TR]. }
  destruct (_ && _); [discriminate | apply TR].
Qed.

(** What the call resolves with is never [null] or [undefined]. *)
Lemma callback_resolved_readable t0 d :
  settled (WithCallback.generateMemoryVideo srv p cb t0) = Resolved d ->
  Js.nullish d = false.
Proof.
  unfold WithCallback.generateMemoryVideo.
  destruct (WithCallback.notify p cb _) as [evs [e|]]; [discriminate|].
  cbn [prefix settled].
  destruct (post_reply srv) as [e|data]; [discriminate|]. cbn [or_reject].
  unfold WithCallback.after_post.
  assert (TR : forall id u now,
            settled (WithCallback.track srv p cb data id u now) = Resolved d ->
            Js.nullish d = false).
  { intros id u now. unfold WithCallback.track.
    destruct (job_started id u); [discriminate|]. cbn [or_reject].
    destruct (get data "status"); [discriminate|]. cbn [or_reject].
    destruct (WithCallback.notify p cb _) as [evs' [e|]]; [discriminate|].
    cbn [prefix settled]. apply callback_loop_resolved. }
  destruct (Js.nullish data) eqn:N.
  { rewrite (isVideoReady_nullish _ N). discriminate. }
  rewrite (isVideoReady_readable _ N). cbn [or_reject].
  destruct (negb (Js.truthy _)); [|now intros [= <-]].
  destruct (requestId_of data); [discriminate|]. cbn [or_reject].
  destruct (get data "status_url"); [discriminate|]. cbn [or_reject].
  destruct (_ && _).
  { destruct (status_template _); [discriminate | apply TR]. }
  destruct (_ && _); [now intros [= <-] | apply TR].
Qed.

(** With a callback that returns on [Initializing...], the call begins
    with that update and the POST. *)
Lemma callback_first_events t0 :
  onStatusUpdate p = true ->
  cb (Js.Str "Initializing...") = None ->
  exists rest,
    events (WithCallback.generateMemoryVideo srv p cb t0) =
    StatusUpdate (Js.Str "Initializing...")
      :: Post API_URL (payload p) (headers p) POST_TIMEOUT :: rest.
Proof.
  intros O I. unfold WithCallback.generateMemoryVideo, WithCallback.notify.
  rewrite O, I. cbn [prefix events app]. eexists. reflexivity.
Qed.

End CallbackFacts.

Lemma commit_app a b st :
  App.commit (a ++ b) st = App.commit b (App.commit a st).
Proof. unfold App.commit. apply fold_left_app. Qed.

(** Setters that are [display_only] leave the inputs of the page alone. *)
Lemma commit_frame ws : forall st,
  forallb display_only ws = true ->
  App.file (App.commit ws st) = App.file st
  /\ App.preview (App.commit ws st) = App.preview st
  /\ App.urlInput (App.commit ws st) = App.urlInput st
  /\ App.keys (App.commit ws st) = App.keys st.
Proof.
  induction ws as [|w ws IH]; intros st H; [now repeat split|].
  cbn in H. apply andb_true_iff in H as [W H].
  change (App.commit (w :: ws) st) with (App.commit ws (App.apply st w)).
  destruct (IH (App.apply st w) H) as (A & B & C & D).
  rewrite A, B, C, D. now destruct w.
Qed.

Lemma commit_statuses shown : forall st,
  App.error (App.commit (map App.SetGenerationStatus shown) st) = App.error st
  /\ App.generatedVideo (App.commit (map App.SetGenerationStatus shown) st)
     = App.generatedVideo st
  /\ App.isSettingsOpen (App.commit (map App.SetGenerationStatus shown) st)
     = App.isSettingsOpen st.
Proof.
  induction shown as [|s shown IH]; intros st; [now repeat split|].
  change (App.commit (map App.SetGenerationStatus (s :: shown)) st)
    with (App.commit (map App.SetGenerationStatus shown)
            (App.apply st (App.SetGenerationStatus s))).
  destruct (IH (App.apply st (App.SetGenerationStatus s))) as (A & B & C).
  now rewrite A, B, C.
Qed.

Lemma display_only_statuses shown :
  forallb display_only (map App.SetGenerationStatus shown) = true.
Proof. induction shown; [reflexivity | exact IHshown]. Qed.

(** The state a started run leaves, in terms of the state its ending
    [ws] was applied to. *)
Lemma after_run shown ws st :
  let before := App.commit (map App.SetGenerationStatus shown)
                  (App.commit run_start st) in
  let st' := App.commit (run_start ++ map App.SetGenerationStatus shown
                           ++ ws ++ run_end) st in
  App.error before = Js.Null
  /\ App.generatedVideo before = App.generatedVideo st
  /\ App.isSettingsOpen before = App.isSettingsOpen st
  /\ App.error st' = App.error (App.commit ws before)
  /\ App.generatedVideo st' = App.generatedVideo (App.commit ws before)
  /\ App.isSettingsOpen st' = App.isSettingsOpen (App.commit ws before)
  /\ App.isGenerating st' = false
  /\ App.generationStatus st' = "".
Proof.
  cbv zeta.
  destruct (commit_statuses shown (App.commit run_start st)) as (A & B & C).
  rewrite A, B, C, !commit_app. now repeat split.
Qed.

Lemma videoUrl_ready d ready :
  isVideoReady d = inr ready -> Js.truthy ready = true ->
  videoUrl d = inr ready.
Proof.
  intros I R.
  assert (N : Js.nullish d = false).
  { destruct (Js.nullish d) eqn:N; [|reflexivity].
    rewrite (isVideoReady_nullish _ N) in I. discriminate I. }
  rewrite (isVideoReady_readable _ N) in I. injection I as <-.
  unfold videoUrl. rewrite !(get_readable _ _ N). cbn [bind].
  unfold ready_value in *.
  destruct (Js.truthy (Js.optional _ _)) eqn:V.
  { now rewrite (or_truthy _ _ V). }
  rewrite (or_falsy _ _ V) in *.
  destruct (Js.truthy (Js.prop d "output")) eqn:O.
  { now rewrite (or_truthy _ _ O). }
  rewrite (or_falsy _ _ O) in *.
  destruct (Js.truthy (Js.prop d "url")) eqn:U.
  { now rewrite (or_truthy _ _ U). }
  rewrite (or_falsy _ _ U) in R.
  destruct (Js.prop d "output"); try discriminate R. discriminate O.
Qed.

Lemma updates_notify p s :
  onStatusUpdate p = true -> updates (notify p s) = [s].
Proof. intros CB. unfold notify. now rewrite CB. Qed.

Lemma updates_submission p :
  onStatusUpdate p = true ->
  updates (submission p) = [Js.Str "Initializing..."].
Proof. intros CB. unfold submission, notify. now rewrite CB. Qed.

Lemma forallb_flat_map {A B} (f : A -> list B) (q : B -> bool) l :
  (forall a, In a l -> forallb q (f a) = true) ->
  forallb q (flat_map f l) = true.
Proof.
  induction l as [|a l IH]; intros H; [reflexivity|].
  cbn [flat_map]. rewrite forallb_app, (H a (or_introl eq_refl)), IH;
    [reflexivity|]. intros b Hb. apply H. now right.
Qed.



Lemma truthy_text prefix_ rest :
  Js.truthy (Js.Str (String prefix_ rest)) = true.
Proof. reflexivity. Qed.

Lemma errorMessage_truthy tem sfy rd err m :
  App.errorMessage tem sfy rd err = inr m -> Js.truthy m = true.
Proof.
  unfold App.errorMessage.
  destruct (occurs _ _); [now intros [= <-]|].
  destruct (Js.truthy (Js.optional (App.data_of rd err) "detail")).
  - destruct (Js.optional (App.data_of rd err) "detail");
      try (now intros [= <-]).
    destruct (get (nth 0 items Js.Undefined) "loc") as [e|loc];
      [discriminate|]. cbn [bind].
    destruct (if Js.truthy loc then _ else _) as [e|field]; [discriminate|].
    cbn [bind].
    destruct (get _ "msg") as [e|msg]; [discriminate|]. cbn [bind].
    destruct (interpolate msg) as [e|text]; [discriminate|]. cbn [bind ret].
    now intros [= <-].
  - destruct (Js.truthy (Js.optional (App.data_of rd err) "message")) eqn:M.
    + now intros [= <-].
    + destruct (App.message_of tem err =? "")%string eqn:E; cbn [negb].
      * now intros [= <-].
      * intros [= <-]. cbn. now rewrite E.
Qed.

(** An error without an HTTP response always gets a message. *)
Lemma errorMessage_plain tem sfy rd err :
  response_status err = None ->
  exists m, App.errorMessage tem sfy rd err = inr m.
Proof.
  intros R. unfold App.errorMessage, App.data_of. rewrite R.
  destruct (occurs _ _); [eexists; reflexivity|]. cbn.
  destruct (negb _); eexists; reflexivity.
Qed.

Section GenerateFacts.

Variable toUpperCase : string -> string.
Variable type_error_message : string.
Variable stringify : Js.value -> string.
Variable response_data : thrown -> Js.value.

Local Abbreviation handleGenerate :=
  (App.handleGenerate toUpperCase type_error_message stringify response_data).
Local Abbreviation handle_error :=
  (App.handle_error type_error_message stringify response_data).
Local Abbreviation handle_response :=
  (App.handle_response type_error_message stringify response_data).
Local Abbreviation generation := (App.generation toUpperCase).

Lemma has_preview_image st :
  App.has_preview st = true ->
  exists image, App.preview st = Some image /\ (image =? "")%string = false.
Proof.
  unfold App.has_preview. destruct (App.preview st) as [image|]; [|discriminate].
  intros H. exists image. split; [reflexivity|]. now apply negb_true_iff.
Qed.

(** What a run that got past the two guards is made of: it always has a
    result. *)
Lemma generate_started srv t0 st image :
  App.preview st = Some image ->
  (image =? "")%string = false ->
  UseApiKeys.hasKeys (App.keys st) = true ->
  let r := generation srv image st t0 in
  exists ws out,
    match settled r with
    | Resolved response => handle_response response = (ws, out)
    | Rejected err => handle_error err = (ws, out)
    | OutOfFuel => False
    end
    /\ handleGenerate srv t0 st =
       Some {| App.writes :=
                 (run_start
                    ++ map App.SetGenerationStatus
                         (App.shown toUpperCase (updates (events r)))
                    ++ ws ++ run_end)%list;
               App.requests := events r;
               App.escaped := out |}.
Proof.
  intros P I K r. unfold App.handleGenerate.
  rewrite P, I, K. cbn [negb]. fold r.
  pose proof (callback_generate_settles srv (App.call_params image st)
                (App.callback toUpperCase) t0) as S.
  change (settled r <> OutOfFuel) in S.
  destruct (settled r) as [response|err|]; [| |now elim S].
  - destruct (App.handle_response _ _ _ response) as [ws out].
    exists ws, out. now split.
  - destruct (App.handle_error _ _ _ err) as [ws out].
    exists ws, out. now split.
Qed.

(** [handleGenerate] always has a result. *)
Lemma handleGenerate_returns srv t0 st :
  exists h, handleGenerate srv t0 st = Some h.
Proof.
  destruct (App.has_preview st) eqn:P.
  - apply has_preview_image in P as (image & P & I).
    destruct (UseApiKeys.hasKeys (App.keys st)) eqn:K.
    + destruct (generate_started srv t0 st image P I K) as (ws & out & _ & H).
      eexists. exact H.
    + unfold App.handleGenerate. rewrite P, I, K. eexists. reflexivity.
  - unfold App.has_preview in P. unfold App.handleGenerate.
    destruct (App.preview st) as [image|]; [|eexists; reflexivity].
    apply negb_false_iff in P. rewrite P. eexists. reflexivity.
Qed.

(** The setter calls of the two endings are [display_only]. *)
Lemma handle_error_display err :
  forallb display_only (fst (handle_error err)) = true.
Proof.
  unfold App.handle_error. destruct (App.errorMessage _ _ _ err); [reflexivity|].
  now destruct (App.unauthorized err).
Qed.

Lemma handle_response_display response :
  forallb display_only (fst (handle_response response)) = true.
Proof.
  unfold App.handle_response. destruct (videoUrl response) as [e|url].
  - apply handle_error_display.
  - destruct (Js.truthy url); [reflexivity|].
    destruct (interpolate _); [apply handle_error_display | reflexivity].
Qed.

(** X12: [handleGenerate] talks to the server only when an image is
    previewed and both keys are set.  Without an image it does nothing;
    with an image but a key missing it opens the settings and sets an
    error, and sends nothing.  Otherwise it has a result whose first two
    events are the status update [Initializing...] and the POST, which
    carries the previewed image and the two keys of the hook. *)
Theorem X12_generate_needs_image_and_keys srv t0 st :
  (App.has_preview st = false ->
   handleGenerate srv t0 st =
   Some {| App.writes := []; App.requests := []; App.escaped := None |})
  /\ (App.has_preview st = true ->
      UseApiKeys.hasKeys (App.keys st) = false ->
      handleGenerate srv t0 st =
      Some {| App.writes :=
                [App.SetIsSettingsOpen true;
                 App.SetError
                   (Js.Str "Please configure your API keys to continue.")];
              App.requests := [];
              App.escaped := None |})
  /\ (App.has_preview st = true ->
      UseApiKeys.hasKeys (App.keys st) = true ->
      exists h image rest,
        handleGenerate srv t0 st = Some h
        /\ App.preview st = Some image
        /\ App.requests h =
           StatusUpdate (Js.Str "Initializing...")
             :: Post API_URL (payload (App.call_params image st))
                  (key_headers (App.keys st)) POST_TIMEOUT
             :: rest
        /\ Js.prop (payload (App.call_params image st)) "image_url"
           = Js.Str image).
Proof.
  split; [|split].
  - unfold App.has_preview, App.handleGenerate.
    destruct (App.preview st) as [image|]; [|reflexivity].
    intros H. apply negb_false_iff in H. now rewrite H.
  - intros P K. apply has_preview_image in P as (image & P & I).
    unfold App.handleGenerate. now rewrite P, I, K.
  - intros P K. apply has_preview_image in P as (image & P & I).
    destruct (generate_started srv t0 st image P I K) as (ws & out & _ & H).
    destruct (callback_first_events srv (App.call_params image st)
                (App.callback toUpperCase) t0 eq_refl eq_refl) as (rest & EV).
    eexists. exists image, rest. split; [exact H|].
    split; [exact P|]. split; [exact EV | reflexivity].
Qed.

(** X13: a run of [handleGenerate] that got past the guards has a result.
    It begins by raising [isGenerating], showing [Initializing...] and
    clearing the error, and ends - however the call went, whatever
    statuses the server reported, and also when the error handling itself
    threw - by lowering [isGenerating] and clearing the status.  It leaves
    the file, the preview, the URL field and the keys as they were. *)
Theorem X13_generate_always_resets srv t0 st :
  App.has_preview st = true ->
  UseApiKeys.hasKeys (App.keys st) = true ->
  exists h,
    handleGenerate srv t0 st = Some h
    /\ (exists between,
          App.writes h =
          ([App.SetIsGenerating true;
            App.SetGenerationStatus "Initializing...";
            App.SetError Js.Null]
             ++ between
             ++ [App.SetIsGenerating false; App.SetGenerationStatus ""])%list)
    /\ let st' := App.commit (App.writes h) st in
       App.isGenerating st' = false
       /\ App.generationStatus st' = ""
       /\ App.file st' = App.file st
       /\ App.preview st' = App.preview st
       /\ App.urlInput st' = App.urlInput st
       /\ App.keys st' = App.keys st.
Proof.
  intros P K. apply has_preview_image in P as (image & P & I).
  destruct (generate_started srv t0 st image P I K) as (ws & out & E & H).
  eexists. split; [exact H|]. cbn [App.writes].
  set (sh := App.shown toUpperCase _).
  assert (D : forallb display_only ws = true).
  { destruct (settled _); [| |destruct E].
    - pose proof (handle_response_display data) as X. now rewrite E in X.
    - pose proof (handle_error_display e) as X. now rewrite E in X. }
  split.
  - exists (map App.SetGenerationStatus sh ++ ws)%list.
    unfold run_start, run_end. now rewrite <- app_assoc.
  - cbv zeta.
    destruct (after_run sh ws st) as (_ & _ & _ & _ & _ & _ & G & S).
    split; [exact G|]. split; [exact S|].
    apply commit_frame. unfold run_start, run_end.
    cbn [app forallb display_only andb].
    rewrite !forallb_app, display_only_statuses, D. reflexivity.
Qed.

End GenerateFacts.


Section GenerateOutcomes.

Variable toUpperCase : string -> string.
Variable type_error_message : string.
Variable stringify : Js.value -> string.
Variable response_data : thrown -> Js.value.

Local Abbreviation handleGenerate :=
  (App.handleGenerate toUpperCase type_error_message stringify response_data).
Local Abbreviation generation := (App.generation toUpperCase).
Local Abbreviation started :=
  (generate_started toUpperCase type_error_message stringify response_data).

(** X14: what is shown when the call resolves.  The handler has a result.
    When the readiness check holds of the response, the value it found
    becomes the video and no error is set.  When it does not (a job
    reported [completed] without a URL, or a job that could not be
    tracked) and the status of the response is a string or is missing,
    the video is left as it was and the error says that no URL was
    found, naming that status, or [unknown] when it is missing. *)
Theorem X14_resolved_call_display srv t0 st image d :
  App.preview st = Some image ->
  (image =? "")%string = false ->
  UseApiKeys.hasKeys (App.keys st) = true ->
  settled (generation srv image st t0) = Resolved d ->
  exists h,
    handleGenerate srv t0 st = Some h
    /\ let st' := App.commit (App.writes h) st in
       (forall ready,
          isVideoReady d = inr ready -> Js.truthy ready = true ->
          App.escaped h = None
          /\ App.generatedVideo st' = ready /\ App.error st' = Js.Null)
       /\ (forall status,
             not_ready d = true ->
             (Js.prop d "status" = Js.Str status /\ status <> "")
             \/ (Js.truthy (Js.prop d "status") = false
                 /\ status = "unknown") ->
             App.escaped h = None
             /\ App.generatedVideo st' = App.generatedVideo st
             /\ App.error st' =
                Js.Str ("Video generation completed but no URL found. Status: "
                          ++ status ++ ". Check console.")).
Proof.
  intros P I K HS.
  destruct (started srv t0 st image P I K) as (ws & out & E & H).
  cbv zeta in E. rewrite HS in E.
  eexists. split; [exact H|]. cbv zeta. cbn [App.writes App.escaped].
  set (sh := App.shown toUpperCase _).
  destruct (after_run sh ws st) as (A & B & _ & A' & B' & _).
  rewrite A', B'.
  set (before := App.commit (map App.SetGenerationStatus sh) _) in *.
  clearbody before.
  pose proof (callback_resolved_readable _ _ _ _ _ HS) as N.
  unfold App.handle_response in E.
  split.
  - intros ready IR R.
    rewrite (videoUrl_ready d ready IR R), R in E. injection E as <- <-.
    cbn. now rewrite A.
  - intros status NR S.
    rewrite (videoUrl_not_ready _ NR) in E. cbn [Js.truthy] in E.
    assert (T : interpolate
                  (Js.or (Js.optional d "status") (Js.Str "unknown"))
                = inr status).
    { unfold Js.optional. rewrite N.
      destruct S as [[S S']|[S ->]].
      - rewrite S. unfold Js.or. cbn [Js.truthy].
        apply String.eqb_neq in S'. now rewrite S'.
      - now rewrite (or_falsy _ _ S). }
    rewrite T in E. injection E as <- <-. cbn. now rewrite B.
Qed.


(** X16: what is shown when the call rejects.  The handler has a result,
    and the error handling runs to its end whenever the error carries no
    HTTP response (a network failure, the timeout, an exception of the
    callback).  When it runs to its end, the error set is never empty,
    the video is left as it was, and the settings dialog is opened
    exactly when the error carries the HTTP status 401 or 403. *)
Theorem X16_rejected_call_display srv t0 st image err :
  App.preview st = Some image ->
  (image =? "")%string = false ->
  UseApiKeys.hasKeys (App.keys st) = true ->
  settled (generation srv image st t0) = Rejected err ->
  exists h,
    handleGenerate srv t0 st = Some h
    /\ (response_status err = None -> App.escaped h = None)
    /\ (App.escaped h = None ->
        let st' := App.commit (App.writes h) st in
        Js.truthy (App.error st') = true
        /\ App.generatedVideo st' = App.generatedVideo st
        /\ (response_status err = Some 401 \/ response_status err = Some 403 ->
            App.isSettingsOpen st' = true)
        /\ (response_status err <> Some 401 ->
            response_status err <> Some 403 ->
            App.isSettingsOpen st' = App.isSettingsOpen st)).
Proof.
  intros P I K HS.
  destruct (started srv t0 st image P I K) as (ws & out & E & H).
  cbv zeta in E. rewrite HS in E.
  eexists. split; [exact H|]. cbn [App.writes App.escaped].
  unfold App.handle_error in E. split.
  - intros R.
    destruct (errorMessage_plain type_error_message stringify response_data err R) as (m & M).
    rewrite M in E. now injection E as _ <-.
  - intros ESC. subst out. cbv zeta.
    set (sh := App.shown toUpperCase _).
    destruct (after_run sh ws st) as (A & B & C & A' & B' & C' & _).
    rewrite A', B', C'.
    set (before := App.commit (map App.SetGenerationStatus sh) _) in *.
  clearbody before.
    destruct (App.errorMessage _ _ _ err) as [e|m] eqn:M; [discriminate E|].
    apply errorMessage_truthy in M.
    injection E as <-. unfold App.unauthorized.
    destruct (response_status err) as [status|].
    + destruct (Z.eqb_spec status 401) as [->|N1]; cbn.
      * split; [exact M|]. split; [exact B|]. split; [reflexivity|].
        intros X. now elim X.
      * destruct (Z.eqb_spec status 403) as [->|N3]; cbn.
        -- split; [exact M|]. split; [exact B|]. split; [reflexivity|].
           intros _ X. now elim X.
        -- split; [exact M|]. split; [exact B|].
           split; [|intros _ _; exact C].
           intros [[= X]|[= X]]; contradiction.
    + cbn. split; [exact M|]. split; [exact B|].
      split; [|intros _ _; exact C].
      intros [X|X]; discriminate X.
Qed.

(** X17: an error response whose [detail] is an empty list defeats the
    error handling.  Reading the first entry of the list throws inside the
    [catch] clause, so no error is set - the one cleared at the start
    stays cleared - and the settings dialog is not opened, even on a 401;
    the [TypeError] leaves the handler once [isGenerating] is lowered. *)
Theorem X17_empty_detail_hides_the_error srv t0 st image m status :
  App.preview st = Some image ->
  (image =? "")%string = false ->
  UseApiKeys.hasKeys (App.keys st) = true ->
  settled (generation srv image st t0) = Rejected (AxiosError m (Some status)) ->
  occurs "Timed out" m = false ->
  Js.optional (response_data (AxiosError m (Some status))) "detail"
    = Js.Arr [] ->
  exists h,
    handleGenerate srv t0 st = Some h
    /\ App.escaped h = Some TypeError
    /\ let st' := App.commit (App.writes h) st in
       App.error st' = Js.Null
       /\ App.isSettingsOpen st' = App.isSettingsOpen st
       /\ App.generatedVideo st' = App.generatedVideo st
       /\ App.isGenerating st' = false.
Proof.
  intros P I K HS TO DET.
  destruct (started srv t0 st image P I K) as (ws & out & E & H).
  cbv zeta in E. rewrite HS in E.
  unfold App.handle_error, App.errorMessage in E.
  cbn [App.message_of App.data_of response_status] in E.
  rewrite TO, DET in E. cbn in E. injection E as <- <-.
  eexists. split; [exact H|]. split; [reflexivity|].
  cbv zeta. cbn [App.writes].
  set (sh := App.shown toUpperCase _).
  destruct (after_run sh [] st) as (A & B & C & A' & B' & C' & G & _).
  rewrite A', B', C'. now repeat split.
Qed.

End GenerateOutcomes.

(** The page on [number_status_server]: the callback is invoked with the
    status [5] of the initial response and throws, the call rejects before
    any poll, and the handler shows the message of the [TypeError]. *)
Lemma number_status_run :
  App.handleGenerate ascii_upper demo_type_error demo_stringify
    (demo_body Js.Null) number_status_server 0 ready_page =
  Some {| App.writes :=
            [App.SetIsGenerating true;
             App.SetGenerationStatus "Initializing...";
             App.SetError Js.Null;
             App.SetGenerationStatus "Initializing...";
             App.SetError (Js.Str demo_type_error);
             App.SetIsGenerating false;
             App.SetGenerationStatus ""];
          App.requests :=
            [StatusUpdate (Js.Str "Initializing...");
             Post API_URL
               (payload (App.call_params "https://example.com/cat.png"
                           ready_page))
               (key_headers (App.keys ready_page)) POST_TIMEOUT;
             StatusUpdate (Js.Num 5)];
          App.escaped := None |}.
Proof. vm_compute. reflexivity. Qed.

(** X13 at work on [number_status_server], where the callback throws. *)
Lemma X13_witness :
  exists h,
    App.handleGenerate ascii_upper demo_type_error demo_stringify
      (demo_body Js.Null) number_status_server 0 ready_page
    = Some h
    /\ (exists between,
          App.writes h =
          ([App.SetIsGenerating true;
            App.SetGenerationStatus "Initializing...";
            App.SetError Js.Null]
             ++ between
             ++ [App.SetIsGenerating false; App.SetGenerationStatus ""])%list)
    /\ let st' := App.commit (App.writes h) ready_page in
       App.isGenerating st' = false
       /\ App.generationStatus st' = ""
       /\ App.file st' = App.file ready_page
       /\ App.preview st' = App.preview ready_page
       /\ App.urlInput st' = App.urlInput ready_page
       /\ App.keys st' = App.keys ready_page.
Proof.
  exact (X13_generate_always_resets ascii_upper demo_type_error
           demo_stringify (demo_body Js.Null) number_status_server 0 ready_page eq_refl eq_refl).
Defined.

(** X14 at work: [flaky_server] ends with a body that says [completed]
    and carries no URL. *)
Lemma X14_witness :
  exists h,
    App.handleGenerate ascii_upper demo_type_error demo_stringify
      (demo_body Js.Null) flaky_server 0 ready_page = Some h
    /\ App.escaped h = None
    /\ App.generatedVideo (App.commit (App.writes h) ready_page)
       = App.generatedVideo ready_page
    /\ App.error (App.commit (App.writes h) ready_page) =
       Js.Str "Video generation completed but no URL found. Status: completed. Check console.".
Proof.
  destruct (X14_resolved_call_display ascii_upper demo_type_error
              demo_stringify (demo_body Js.Null) flaky_server 0
              ready_page "https://example.com/cat.png" completed_body
              eq_refl eq_refl eq_refl eq_refl) as (h & H & _ & N).
  exists h. split; [exact H|].
  apply (N "completed" eq_refl).
  left. split; [reflexivity | discriminate].
Defined.


(** X16 at work: a 403 at the first poll, with a body that explains
    nothing. *)
Lemma X16_witness :
  exists h,
    App.handleGenerate ascii_upper demo_type_error demo_stringify
      (demo_body Js.Null) (refusing_server 403) 0 ready_page
    = Some h
    /\ let st' := App.commit (App.writes h) ready_page in
       Js.truthy (App.error st') = true
       /\ App.generatedVideo st' = App.generatedVideo ready_page
       /\ App.isSettingsOpen st' = true.
Proof.
  destruct (X16_rejected_call_display ascii_upper demo_type_error
              demo_stringify (demo_body Js.Null) (refusing_server 403) 0 ready_page
              "https://example.com/cat.png"
              (AxiosError "Request failed" (Some 403))
              eq_refl eq_refl eq_refl eq_refl) as (h & H & _ & D).
  exists h. split; [exact H|].
  assert (ESC : App.escaped h = None).
  { vm_compute in H. injection H as <-. reflexivity. }
  destruct (D ESC) as (A & B & C & _).
  split; [exact A|]. split; [exact B|]. apply C. now right.
Defined.

(** X17 at work: a 401 at the first poll whose body holds an empty
    [detail] list. *)
Lemma X17_witness :
  exists h,
    App.handleGenerate ascii_upper demo_type_error demo_stringify
      (demo_body (Js.Arr [])) (refusing_server 401) 0 ready_page
    = Some h
    /\ App.escaped h = Some TypeError
    /\ let st' := App.commit (App.writes h) ready_page in
       App.error st' = Js.Null
       /\ App.isSettingsOpen st' = App.isSettingsOpen ready_page
       /\ App.generatedVideo st' = App.generatedVideo ready_page
       /\ App.isGenerating st' = false.
Proof.
  exact (X17_empty_detail_hides_the_error ascii_upper demo_type_error
           demo_stringify (demo_body (Js.Arr [])) (refusing_server 401) 0 ready_page "https://example.com/cat.png"
           "Request failed" 401
           eq_refl eq_refl eq_refl eq_refl eq_refl eq_refl).
Defined.

Section PageFacts.

Variable toUpperCase : string -> string.
Variable type_error_message : string.
Variable stringify : Js.value -> string.
Variable response_data : thrown -> Js.value.

Local Abbreviation handleGenerate :=
  (App.handleGenerate toUpperCase type_error_message stringify response_data).

(** X18: after [clearAll] there is nothing to generate from.  Whatever
    the page held, the video and the error are gone, [handleUrlSubmit]
    does nothing and [handleGenerate] does nothing and sends nothing.  The
    keys, the settings dialog and [isGenerating] are not touched. *)
Theorem X18_clearAll_blocks_generation srv t0 st :
  let st' := App.commit App.clearAll st in
  App.handleUrlSubmit st' = []
  /\ handleGenerate srv t0 st' =
     Some {| App.writes := []; App.requests := []; App.escaped := None |}
  /\ App.generatedVideo st' = Js.Null
  /\ App.error st' = Js.Null
  /\ App.keys st' = App.keys st
  /\ App.isSettingsOpen st' = App.isSettingsOpen st
  /\ App.isGenerating st' = App.isGenerating st.
Proof. cbv zeta. now repeat split. Qed.

(** X20: saving the settings closes the dialog and replaces both keys,
    blank or not.  The hook then has keys exactly when neither field was
    empty; when one was, the next [handleGenerate] on a previewed image
    sends nothing and opens the dialog again. *)
Theorem X20_saved_keys_gate_generation srv t0 st fieldKey fieldSecret :
  let st' := App.commit (App.handleSave fieldKey fieldSecret) st in
  App.isSettingsOpen st' = false
  /\ App.keys st' =
     {| UseApiKeys.apiKey := fieldKey; UseApiKeys.apiSecret := fieldSecret |}
  /\ (UseApiKeys.hasKeys (App.keys st') = true <->
      fieldKey <> "" /\ fieldSecret <> "")
  /\ (App.has_preview st = true ->
      fieldKey = "" \/ fieldSecret = "" ->
      exists h,
        handleGenerate srv t0 st' = Some h
        /\ App.requests h = []
        /\ App.isSettingsOpen (App.commit (App.writes h) st') = true).
Proof.
  cbv zeta. split; [reflexivity|]. split; [reflexivity|].
  assert (HK : UseApiKeys.hasKeys
                 (App.keys (App.commit (App.handleSave fieldKey fieldSecret) st))
               = true <-> fieldKey <> "" /\ fieldSecret <> "").
  { cbn. unfold UseApiKeys.hasKeys. cbn.
    now rewrite andb_true_iff, !negb_true_iff, !String.eqb_neq. }
  split; [exact HK|].
  intros P B.
  assert (NK : UseApiKeys.hasKeys
                 (App.keys (App.commit (App.handleSave fieldKey fieldSecret) st))
               = false).
  { apply not_true_is_false. intros E.
    apply HK in E as [A C]. destruct B; contradiction. }
  apply has_preview_image in P as (image & P & I).
  eexists. split; [|split].
  - unfold App.handleGenerate.
    change (App.preview (App.commit (App.handleSave fieldKey fieldSecret) st))
      with (App.preview st).
    rewrite P, I, NK. reflexivity.
  - reflexivity.
  - reflexivity.
Qed.

End PageFacts.

(** X19: a refused file always leaves an error to show.  With no
    rejection nothing is done; with one, the handler sets exactly one
    error, a string that is not empty, whatever the picker reported. *)
Theorem X19_rejected_drop_sets_an_error rejections :
  (rejections = [] -> App.onDropRejected rejections = [])
  /\ (rejections <> [] ->
      exists m,
        App.onDropRejected rejections = [App.SetError (Js.Str m)]
        /\ m <> "").
Proof.
  split; [now intros ->|].
  destruct rejections as [|rejection rest]; [now intros X|]. intros _.
  cbn [App.onDropRejected].
  destruct (App.errors rejection) as [|first more].
  - eexists. split; [reflexivity | discriminate].
  - destruct (App.code first =? "file-too-large")%string.
    + eexists. split; [reflexivity | discriminate].
    + destruct (App.code first =? "file-invalid-type")%string.
      * eexists. split; [reflexivity | discriminate].
      * destruct (String.eqb_spec (App.message first) "") as [E|NE]; cbn [negb].
        -- eexists. split; [reflexivity | discriminate].
        -- eexists. split; [reflexivity | exact NE].
Qed.

(** X19 at work on a rejection that carries no error at all. *)
Lemma X19_witness :
  exists m,
    App.onDropRejected [{| App.errors := [] |}] = [App.SetError (Js.Str m)]
    /\ m <> "".
Proof.
  apply (proj2 (X19_rejected_drop_sets_an_error [{| App.errors := [] |}])).
  discriminate.
Defined.

(** X20 at work: the secret was left blank. *)
Lemma X20_witness :
  exists h,
    App.handleGenerate ascii_upper demo_type_error demo_stringify
      (demo_body Js.Null) flaky_server 0
      (App.commit (App.handleSave "key" "") ready_page) = Some h
    /\ App.requests h = []
    /\ App.isSettingsOpen
         (App.commit (App.writes h)
            (App.commit (App.handleSave "key" "") ready_page)) = true.
Proof.
  apply (proj2 (proj2 (proj2 (X20_saved_keys_gate_generation ascii_upper
           demo_type_error demo_stringify (demo_body Js.Null) flaky_server 0 ready_page "key" "")))).
  - reflexivity.
  - now right.
Defined.

(** X9 at work: a plain https URL passes, the same URL after a space does
    not. *)
Lemma X9_witness :
  Text.matches Text.url_pattern "https://example.com/a.png" = true
  /\ ~ (exists c rest,
          Text.is_line_terminator c = false
          /\ (" https://example.com/a.png" = ("http://" ++ String c rest)%string
              \/ " https://example.com/a.png"
                 = ("https://" ++ String c rest)%string)).
Proof.
  split.
  - apply (proj2 (X9_url_pattern_accepts "https://example.com/a.png")).
    exists "e"%char, "xample.com/a.png". split; [reflexivity|]. now right.
  - intros X.
    apply (proj2 (X9_url_pattern_accepts " https://example.com/a.png")) in X.
    discriminate X.
Defined.

(** X11 at work: real keys are adopted, a placeholder secret spoils both. *)
Lemma X11_witness :
  UseApiKeys.hasKeys
    (UseApiKeys.mount (Some "k-1") (Some "s-1") UseApiKeys.initial) = true
  /\ UseApiKeys.mount (Some "k-1") (Some "YOUR_API_SECRET") UseApiKeys.initial
     = UseApiKeys.initial.
Proof.
  split.
  - apply (proj2 (proj1 (X11_env_keys_all_or_nothing (Some "k-1") (Some "s-1")))).
    exists "k-1", "s-1". repeat split; discriminate.
  - apply (proj2 (proj2 (X11_env_keys_all_or_nothing
                           (Some "k-1") (Some "YOUR_API_SECRET")))).
    reflexivity.
Defined.

(** X12 at work: with an image previewed and no key saved, nothing is
    sent. *)
Lemma X12_witness :
  App.handleGenerate ascii_upper demo_type_error demo_stringify
    (demo_body Js.Null) flaky_server 0
    (App.commit [App.SetPreview (Some "https://example.com/cat.png")]
       (fresh_page "")) =
  Some {| App.writes :=
            [App.SetIsSettingsOpen true;
             App.SetError
               (Js.Str "Please configure your API keys to continue.")];
          App.requests := [];
          App.escaped := None |}.
Proof.
  apply (proj1 (proj2 (X12_generate_needs_image_and_keys ascii_upper
           demo_type_error demo_stringify (demo_body Js.Null) flaky_server 0
           (App.commit [App.SetPreview (Some "https://example.com/cat.png")]
              (fresh_page ""))))); reflexivity.
Defined.
